(** * SQL database source helpers: the table loader of [dlt.sources.sql_database]

    A shallow embedding of [dlt/sources/sql_database/helpers.py]:
    the query builder [TableLoader._make_query], the two row-loading paths,
    the generator [table_rows] and [engine_from_credentials], followed by the
    properties of the extraction engine that the specification states.

    SQLAlchemy objects are modelled symbolically: a clause is the tree of
    constructor calls the helper makes ([sa.and_], [sa.or_], [operator.ge],
    [Column.is_] ...), a select statement is the table together with the clauses
    handed to [where] and [order_by]. A three-valued evaluation of clauses on a
    row gives the rows a query selects. *)

From stdpp Require Import base option list strings gmap.
From Equations Require Import Equations.
From Stdlib Require Import ZArith Lia Ascii.

Open Scope string_scope.
Open Scope list_scope.
Open Scope nat_scope.

(** ** Python values and exceptions *)

(** Values that travel in keyword-argument dictionaries. *)
Inductive PyVal :=
| PyNone
| PyBool (b : bool)
| PyInt (z : Z)
| PyStr (s : string).

(** The exceptions the helpers raise or let through. [DatabaseError] stands
    for whatever the driver raises. *)
Inductive Exn :=
| KeyError (msg : string)
| TypeError (msg : string)
| AttributeError (msg : string)
| NotImplementedError (msg : string)
| MissingDependencyException (caller : string) (dependencies : list string)
| DatabaseError (msg : string).

(** A call either returns or raises. *)
Inductive result (A : Type) :=
| Ok (a : A)
| Raised (e : Exn).
Arguments Ok {A} a.
Arguments Raised {A} e.

#[export] Instance result_ret : MRet result := fun _ a => Ok a.
#[export] Instance result_fmap : FMap result := fun _ _ f m =>
  match m with
  | Ok a => Ok (f a)
  | Raised e => Raised e
  end.
#[export] Instance result_bind : MBind result := fun _ _ f m =>
  match m with
  | Ok a => f a
  | Raised e => Raised e
  end.

(** ** SQLAlchemy: tables, clauses, select statements *)

Module Column.
Record t := { name : string; type_ : string }.
End Column.

Module Table.
Record t := { name : string; schema : option string; c : list Column.t }.

(** [table.c[key]]: the column collection raises [KeyError] on a miss. *)
Definition c_getitem (table : t) (key : string) : result Column.t :=
  match List.find (fun col => String.eqb (Column.name col) key) (c table) with
  | Some col => Ok col
  | None => Raised (KeyError key)
  end.
End Table.

(** The comparison functions of the [operator] module used as filters. *)
Module operator.
Inductive t := ge | lt | le | gt.
End operator.

(** What [where_clause] can hold: the Python constant [True] it starts from,
    or a SQLAlchemy clause element. [V] is the type of cursor values (numbers,
    timestamps, strings ...). *)
Inductive ClauseElement (V : Type) :=
| PyTrue
| BinaryExpression (op : operator.t) (column : Column.t) (value : V)
| IsNull (column : Column.t)
| IsNotNull (column : Column.t)
| And_ (left right : ClauseElement V)
| Or_ (left right : ClauseElement V).
Arguments PyTrue {V}.
Arguments BinaryExpression {V} op column value.
Arguments IsNull {V} column.
Arguments IsNotNull {V} column.
Arguments And_ {V} left right.
Arguments Or_ {V} left right.

Inductive UnaryExpression :=
| Asc (column : Column.t)
| Desc (column : Column.t).

Module Select.
Record t (V : Type) := {
  froms : Table.t;
  whereclause : list (ClauseElement V);
  order_by_clauses : list UnaryExpression
}.
Arguments froms {V} _.
Arguments whereclause {V} _.
Arguments order_by_clauses {V} _.

(** [table.select()] *)
Definition select {V} (table : Table.t) : t V :=
  {| froms := table; whereclause := []; order_by_clauses := [] |}.

(** [query.where(clause)]: a further criterion, joined to the others by AND. *)
Definition where_ {V} (query : t V) (clause : ClauseElement V) : t V :=
  {| froms := froms query;
     whereclause := whereclause query ++ [clause];
     order_by_clauses := order_by_clauses query |}.

(** [query.order_by(clause)] *)
Definition order_by {V} (query : t V) (clause : UnaryExpression) : t V :=
  {| froms := froms query;
     whereclause := whereclause query;
     order_by_clauses := order_by_clauses query ++ [clause] |}.
End Select.

(** ** The incremental cursor state ([dlt.extract.Incremental]) *)

(** [last_value_func] is compared by identity with the builtins [max] and
    [min]; any other callable is a custom function, whatever it computes. *)
Inductive LastValueFunc (V : Type) :=
| builtin_max
| builtin_min
| custom_func (f : list V -> option V).
Arguments builtin_max {V}.
Arguments builtin_min {V}.
Arguments custom_func {V} f.

(** [last_value_func is max], [last_value_func is min] *)
Definition is_max {V} (f : LastValueFunc V) : bool :=
  match f with builtin_max => true | _ => false end.
Definition is_min {V} (f : LastValueFunc V) : bool :=
  match f with builtin_min => true | _ => false end.

Module Incremental.
Record t (V : Type) := {
  cursor_path : string;
  last_value : option V;
  end_value : option V;
  last_value_func : LastValueFunc V;
  row_order : option string;
  on_cursor_value_missing : string;
  primary_key : option (list string)
}.
Arguments cursor_path {V} _.
Arguments last_value {V} _.
Arguments end_value {V} _.
Arguments last_value_func {V} _.
Arguments row_order {V} _.
Arguments on_cursor_value_missing {V} _.
Arguments primary_key {V} _.
End Incremental.


(** ** Engines *)

Module URL.
Record t := { drivername : string; location : string }.

(** [url.get_backend_name()]: the driver name up to the first [+]. *)
Fixpoint backend_of (drivername : string) : string :=
  match drivername with
  | EmptyString => EmptyString
  | String ch rest =>
      if Ascii.eqb ch "+"%char then EmptyString else String ch (backend_of rest)
  end.
Definition get_backend_name (url : t) : string := backend_of (drivername url).

(** [url._replace(drivername=...)] *)
Definition _replace (url : t) (drivername' : string) : t :=
  {| drivername := drivername'; location := location url |}.

(** [url.render_as_string(hide_password=False)] *)
Definition render_as_string (url : t) : string :=
  drivername url +:+ "://" +:+ location url.
End URL.

Module Engine.
(** [may_dispose_after_use] is an attribute set on the engine object after its
    creation; an engine built elsewhere does not have it. *)
Record t := { url : URL.t; may_dispose_after_use : option bool }.

(** [getattr(engine, "may_dispose_after_use", False)] *)
Definition getattr_may_dispose_after_use (engine : t) : bool :=
  default false (may_dispose_after_use engine).
End Engine.

Definition TTableSchemaColumns : Type := list (string * string).

(** ** The table loader *)

(** The attributes [TableLoader.__init__] sets. [chunk_size] is a number of
    rows. *)
Module TableLoader.
Record t (V : Type) := {
  engine : Engine.t;
  backend : string;
  table : Table.t;
  columns : TTableSchemaColumns;
  chunk_size : nat;
  query_adapter_callback : option (Select.t V -> Table.t -> Select.t V);
  incremental : option (Incremental.t V);
  cursor_column : option Column.t;
  last_value : option V;
  end_value : option V;
  row_order : option string;
  on_cursor_value_missing : option string
}.
Arguments engine {V} _.
Arguments backend {V} _.
Arguments table {V} _.
Arguments columns {V} _.
Arguments chunk_size {V} _.
Arguments query_adapter_callback {V} _.
Arguments incremental {V} _.
Arguments cursor_column {V} _.
Arguments last_value {V} _.
Arguments end_value {V} _.
Arguments row_order {V} _.
Arguments on_cursor_value_missing {V} _.
End TableLoader.

Section Loader.
Context {V : Type}.

(** The message of the [KeyError] raised for a cursor column the table lacks. *)
Definition cursor_column_missing_msg (cursor_path table_name : string) : string :=
  "Cursor column '" +:+ cursor_path +:+ "' does not exist in table '" +:+ table_name +:+ "'".

(** [TableLoader.__init__] *)
Definition __init__ (engine : Engine.t) (backend : string) (table : Table.t)
    (columns : TTableSchemaColumns) (chunk_size : nat)
    (incremental : option (Incremental.t V))
    (query_adapter_callback : option (Select.t V -> Table.t -> Select.t V))
  : result (TableLoader.t V) :=
  match incremental with
  | Some inc =>
      match Table.c_getitem table (Incremental.cursor_path inc) with
      | Raised (KeyError _) =>
          Raised (KeyError
            (cursor_column_missing_msg (Incremental.cursor_path inc) (Table.name table)))
      | Raised e => Raised e
      | Ok column =>
          Ok {| TableLoader.engine := engine;
                TableLoader.backend := backend;
                TableLoader.table := table;
                TableLoader.columns := columns;
                TableLoader.chunk_size := chunk_size;
                TableLoader.query_adapter_callback := query_adapter_callback;
                TableLoader.incremental := incremental;
                TableLoader.cursor_column := Some column;
                TableLoader.last_value := Incremental.last_value inc;
                TableLoader.end_value := Incremental.end_value inc;
                TableLoader.row_order := Incremental.row_order inc;
                TableLoader.on_cursor_value_missing :=
                  Some (Incremental.on_cursor_value_missing inc) |}
      end
  | None =>
      Ok {| TableLoader.engine := engine;
            TableLoader.backend := backend;
            TableLoader.table := table;
            TableLoader.columns := columns;
            TableLoader.chunk_size := chunk_size;
            TableLoader.query_adapter_callback := query_adapter_callback;
            TableLoader.incremental := incremental;
            TableLoader.cursor_column := None;
            TableLoader.last_value := None;
            TableLoader.end_value := None;
            TableLoader.row_order := None;
            TableLoader.on_cursor_value_missing := None |}
  end.

(** [filter_op(column, value)] for one of the [operator] comparisons: on a
    column it builds a binary expression; on [None] the comparison is not
    supported. *)
Definition apply_operator (op : operator.t) (column : option Column.t) (value : V)
  : result (ClauseElement V) :=
  match column with
  | Some col => Ok (BinaryExpression op col value)
  | None => Raised (TypeError "comparison not supported for NoneType")
  end.

(** [column.is_(None)], [column.isnot(None)], [column.asc()], [column.desc()]:
    methods of the column, absent on [None]. *)
Definition column_method {A} (method : Column.t -> A) (attr : string)
    (column : option Column.t) : result A :=
  match column with
  | Some col => Ok (method col)
  | None => Raised (AttributeError ("'NoneType' object has no attribute '" +:+ attr +:+ "'"))
  end.

(** [where_clause is not True] *)
Definition is_not_True (where_clause : ClauseElement V) : bool :=
  match where_clause with
  | PyTrue => false
  | _ => true
  end.

(** [TableLoader._make_query] *)
Definition _make_query (self : TableLoader.t V) : result (Select.t V) :=
  let table := TableLoader.table self in
  let query := Select.select table in
  match TableLoader.incremental self with
  | None => Ok query
  | Some inc =>
      let last_value_func := Incremental.last_value_func inc in
      (* generate where *)
      match
        if is_max last_value_func then Some (operator.ge, operator.lt)
        else if is_min last_value_func then Some (operator.le, operator.gt)
        else None
      with
      | None => Ok query
      | Some (filter_op, filter_op_end) =>
          where_clause ←
            match TableLoader.last_value self with
            | Some last_value =>
                where_clause ← apply_operator filter_op (TableLoader.cursor_column self) last_value;
                where_clause ←
                  match TableLoader.end_value self with
                  | Some end_value =>
                      end_clause ← apply_operator filter_op_end
                                     (TableLoader.cursor_column self) end_value;
                      Ok (And_ where_clause end_clause)
                  | None => Ok where_clause
                  end;
                if bool_decide (TableLoader.on_cursor_value_missing self = Some "include")
                then
                  null_clause ← column_method IsNull "is_" (TableLoader.cursor_column self);
                  Ok (Or_ where_clause null_clause)
                else Ok where_clause
            | None => Ok PyTrue
            end;
          where_clause ←
            (if bool_decide (TableLoader.on_cursor_value_missing self = Some "exclude")
             then
               not_null ← column_method IsNotNull "isnot" (TableLoader.cursor_column self);
               Ok (And_ where_clause not_null)
             else Ok where_clause);
          let query :=
            if is_not_True where_clause then Select.where_ query where_clause else query in
          (* generate order by from declared row order *)
          let row_order := TableLoader.row_order self in
          order_by ←
            (if bool_decide (row_order = Some "asc") && is_max last_value_func
                || bool_decide (row_order = Some "desc") && is_min last_value_func
             then Some <$> column_method Asc "asc" (TableLoader.cursor_column self)
             else if bool_decide (row_order = Some "asc") && is_min last_value_func
                     || bool_decide (row_order = Some "desc") && is_max last_value_func
             then Some <$> column_method Desc "desc" (TableLoader.cursor_column self)
             else Ok None);
          Ok match order_by with
             | Some order_by => Select.order_by query order_by
             | None => query
             end
      end
  end.

(** [TableLoader.make_query] *)
Definition make_query (self : TableLoader.t V) : result (Select.t V) :=
  match TableLoader.query_adapter_callback self with
  | Some callback =>
      query ← _make_query self;
      Ok (callback query (TableLoader.table self))
  | None => _make_query self
  end.

End Loader.

(** ** Rows and the rows a query selects *)

(** A result row; [_mapping] gives its cells by column name, [None] for NULL. *)
Module Row.
Record t (V : Type) := { _mapping : list (string * option V) }.
Arguments _mapping {V} _.

(** The cell of a row under a column name; a column the row lacks reads NULL. *)
Fixpoint cell_of {V} (mapping : list (string * option V)) (column : string) : option V :=
  match mapping with
  | [] => None
  | (key, value) :: rest => if String.eqb key column then value else cell_of rest column
  end.
Definition cell {V} (row : t V) (column : string) : option V :=
  cell_of (_mapping row) column.
End Row.

Section Semantics.
Context {V : Type}.
(** How the database compares two non-NULL values under each operator. *)
Variable compare : operator.t -> V -> V -> bool.

(** SQL conjunction and disjunction over TRUE, FALSE and UNKNOWN ([None]). *)
Definition and3 (a b : option bool) : option bool :=
  match a, b with
  | Some false, _ | _, Some false => Some false
  | Some true, Some true => Some true
  | _, _ => None
  end.
Definition or3 (a b : option bool) : option bool :=
  match a, b with
  | Some true, _ | _, Some true => Some true
  | Some false, Some false => Some false
  | _, _ => None
  end.

(** The truth value of a clause on a row. *)
Fixpoint eval (row : Row.t V) (clause : ClauseElement V) : option bool :=
  match clause with
  | PyTrue => Some true
  | BinaryExpression op column value =>
      match Row.cell row (Column.name column) with
      | Some x => Some (compare op x value)
      | None => None
      end
  | IsNull column =>
      Some match Row.cell row (Column.name column) with None => true | Some _ => false end
  | IsNotNull column =>
      Some match Row.cell row (Column.name column) with None => false | Some _ => true end
  | And_ l r => and3 (eval row l) (eval row r)
  | Or_ l r => or3 (eval row l) (eval row r)
  end.

(** A row is selected when every WHERE criterion is TRUE on it. *)
Definition selects (query : Select.t V) (row : Row.t V) : bool :=
  forallb (fun clause => bool_decide (eval row clause = Some true)) (Select.whereclause query).

End Semantics.

(** ** Generators

    The items the helpers yield, the effects they have on the outside world,
    and generator bodies as the sequence of both. *)

(** [dlt.mark.make_hints(primary_key=..., columns=...)] *)
Module Hints.
Record t := { primary_key : option (list string); columns : TTableSchemaColumns }.
End Hints.

Inductive TDataItem (V : Type) :=
| RowDicts (rows : list (list (string * option V)))
| DataFrame (partition : list (Row.t V)) (columns : list string) (kwargs : gmap string PyVal)
| ArrowTable (partition : list (Row.t V)) (columns : TTableSchemaColumns) (tz : PyVal)
| ConnectorXResult (conn : PyVal) (query_str : string) (kwargs : gmap string PyVal)
| WithHints (items : list (Row.t V)) (hints : Hints.t).
Arguments RowDicts {V} rows.
Arguments DataFrame {V} partition columns kwargs.
Arguments ArrowTable {V} partition columns tz.
Arguments ConnectorXResult {V} conn query_str kwargs.
Arguments WithHints {V} items hints.

Inductive Event (V : Type) :=
| Reflected (engine : Engine.t) (table_name : string)
| PrimaryKeySet (primary_key : list string)
| Connected (engine : Engine.t)
| Executed (query : Select.t V) (yield_per : nat)
| ConnectionClosed (engine : Engine.t)
| ReadSql (conn : PyVal) (query_str : string) (kwargs : gmap string PyVal)
| Disposed (engine : Engine.t).
Arguments Reflected {V} engine table_name.
Arguments PrimaryKeySet {V} primary_key.
Arguments Connected {V} engine.
Arguments Executed {V} query yield_per.
Arguments ConnectionClosed {V} engine.
Arguments ReadSql {V} conn query_str kwargs.
Arguments Disposed {V} engine.

(** A generator body. At a [Yield] the generator is suspended; [on_close] is
    what the enclosing [finally] blocks and context managers do, innermost
    first, if the consumer closes the generator there. *)
Inductive Generator (V : Type) :=
| Return
| Raise (e : Exn)
| Perform (event : Event V) (next : Generator V)
| Yield (item : TDataItem V) (on_close : list (Event V)) (next : Generator V).
Arguments Return {V}.
Arguments Raise {V} e.
Arguments Perform {V} event next.
Arguments Yield {V} item on_close next.

Section Generators.
Context {V : Type}.

Fixpoint perform_all (events : list (Event V)) (next : Generator V) : Generator V :=
  match events with
  | [] => next
  | event :: rest => Perform event (perform_all rest next)
  end.

(** [try: body finally: cleanup], also the shape of a [with] block. The
    cleanup runs when the body returns, when it raises, and when the generator
    is closed at one of the body's yields. *)
Fixpoint try_finally (body : Generator V) (cleanup : list (Event V)) : Generator V :=
  match body with
  | Return => perform_all cleanup Return
  | Raise e => perform_all cleanup (Raise e)
  | Perform event next => Perform event (try_finally next cleanup)
  | Yield item on_close next => Yield item (on_close ++ cleanup) (try_finally next cleanup)
  end.

(** What a consumer observes. *)
Inductive Observation :=
| Item (item : TDataItem V)
| Effect (event : Event V).

Inductive Outcome :=
| Exhausted
| Failed (e : Exn)
| Closed.

(** The consumer asks for [n] items and then closes the generator. A
    generator that was never started runs no code when closed; one suspended
    at a yield runs the cleanup pending there. More requests than the
    generator has items run it to its end. *)
Fixpoint consume (n : nat) (gen : Generator V) : list Observation * Outcome :=
  match n with
  | 0 => ([], Closed)
  | S m =>
      match gen with
      | Return => ([], Exhausted)
      | Raise e => ([], Failed e)
      | Perform event next =>
          let '(trace, outcome) := consume n next in (Effect event :: trace, outcome)
      | Yield item on_close next =>
          match m with
          | 0 => (Item item :: map Effect on_close, Closed)
          | S _ =>
              let '(trace, outcome) := consume m next in (Item item :: trace, outcome)
          end
      end
  end.

(** The items a generator yields when run to its end, and its number of yields. *)
Fixpoint yields (gen : Generator V) : list (TDataItem V) :=
  match gen with
  | Return | Raise _ => []
  | Perform _ next => yields next
  | Yield item _ next => item :: yields next
  end.

Definition items_of (trace : list Observation) : list (TDataItem V) :=
  omap (fun o => match o with Item item => Some item | Effect _ => None end) trace.
Definition effects_of (trace : list Observation) : list (Event V) :=
  omap (fun o => match o with Effect event => Some event | Item _ => None end) trace.

End Generators.
Arguments Observation V : clear implicits.

(** ** The database, the reflection helpers and ConnectorX

    Everything the helpers call outside this module, as one record: the
    result of each call on each argument. *)

Module ExecResult.
(** The result of an executed query: its column names, the rows it delivers,
    and the error, if any, with which fetching fails after them. *)
Record t (V : Type) := {
  keys : list string;
  rows : list (Row.t V);
  failure : option Exn
}.
Arguments keys {V} _.
Arguments rows {V} _.
Arguments failure {V} _.
End ExecResult.

Definition TTypeAdapter : Type := string -> option string.

Module World.
Record t (V : Type) := {
  (* schema_types *)
  reflect : Engine.t -> Table.t -> Table.t;
  default_table_adapter : Table.t -> option (list string) -> Table.t;
  table_to_columns : Table.t -> string -> option TTypeAdapter -> TTableSchemaColumns;
  get_primary_key : Table.t -> option (list string);
  (* the engine's connection *)
  connect : Engine.t -> result ();
  execute : Engine.t -> Select.t V -> nat -> result (ExecResult.t V);
  (* connectorx *)
  connectorx_importable : bool;
  compile_literal : Engine.t -> Select.t V -> string + string;
  read_sql : PyVal -> string -> gmap string PyVal -> result ();
  (* engine_from_credentials *)
  to_native_representation : URL.t -> string;
  create_engine : string -> gmap string PyVal -> Engine.t
}.
Arguments reflect {V} _.
Arguments default_table_adapter {V} _.
Arguments table_to_columns {V} _.
Arguments get_primary_key {V} _.
Arguments connect {V} _.
Arguments execute {V} _.
Arguments connectorx_importable {V} _.
Arguments compile_literal {V} _.
Arguments read_sql {V} _.
Arguments to_native_representation {V} _.
Arguments create_engine {V} _.
End World.

Section Loading.
Context {V : Type}.
Variable world : World.t V.

(** [result.partitions(size)]: batches of [size] rows, fetched until a fetch
    comes back empty (at once when [size] is 0 or there is no row). *)
Equations? partitions (size : nat) (rows : list (Row.t V)) : list (list (Row.t V))
  by wf (length rows) lt :=
  partitions 0 _ := [];
  partitions (S _) [] := [];
  partitions size rows := take size rows :: partitions size (drop size rows).
Proof. rewrite length_drop. simpl. lia. Qed.

(** [dict(row._mapping)] *)
Definition dict_of_row (row : Row.t V) : list (string * option V) := Row._mapping row.

(** The body of the loop over the partitions in [_load_rows], followed by
    what the cursor does once the partitions are used up. *)
Fixpoint yield_partitions (self : TableLoader.t V) (columns : list string)
    (backend_kwargs : gmap string PyVal) (parts : list (list (Row.t V)))
    (finish : Generator V) : Generator V :=
  match parts with
  | [] => finish
  | partition :: rest =>
      let next := yield_partitions self columns backend_kwargs rest finish in
      if String.eqb (TableLoader.backend self) "sqlalchemy" then
        Yield (RowDicts (map dict_of_row partition)) [] next
      else if String.eqb (TableLoader.backend self) "pandas" then
        Yield (DataFrame partition columns
                 (backend_kwargs ∪ {[ "dtype_backend" := PyStr "pyarrow" ]})) [] next
      else if String.eqb (TableLoader.backend self) "pyarrow" then
        Yield (ArrowTable partition (TableLoader.columns self)
                 (default (PyStr "UTC") (backend_kwargs !! "tz"))) [] next
      else next
  end.

(** [TableLoader._load_rows] *)
Definition _load_rows (self : TableLoader.t V) (query : Select.t V)
    (backend_kwargs : gmap string PyVal) : Generator V :=
  let engine := TableLoader.engine self in
  match World.connect world engine with
  | Raised e => Raise e
  | Ok _ =>
      Perform (Connected engine)
        (try_finally
           (Perform (Executed query (TableLoader.chunk_size self))
              match World.execute world engine query (TableLoader.chunk_size self) with
              | Raised e => Raise e
              | Ok result =>
                  let columns := ExecResult.keys result in
                  yield_partitions self columns backend_kwargs
                    (partitions (TableLoader.chunk_size self) (ExecResult.rows result))
                    match ExecResult.failure result with
                    | Some e => Raise e
                    | None => Return
                    end
              end)
           [ConnectionClosed engine])
  end.

Definition not_compiled_msg (table_name ex : string) : string :=
  "Query for table " +:+ table_name +:+ " could not be compiled to string to execute it"
  +:+ " on ConnectorX. If you are on SQLAlchemy 1.4.x the causing exception is due to"
  +:+ " literals that cannot be rendered, upgrade to 2.x: " +:+ ex.

(** [TableLoader._load_rows_connectorx] *)
Definition _load_rows_connectorx (self : TableLoader.t V) (query : Select.t V)
    (backend_kwargs : gmap string PyVal) : Generator V :=
  if negb (World.connectorx_importable world) then
    Raise (MissingDependencyException "Connector X table backend" ["connectorx"])
  else
    (* default settings *)
    let backend_kwargs : gmap string PyVal :=
      backend_kwargs ∪ {[ "return_type" := PyStr "arrow2"; "protocol" := PyStr "binary" ]} in
    let url := Engine.url (TableLoader.engine self) in
    let conn :=
      default (PyStr (URL.render_as_string (URL._replace url (URL.get_backend_name url))))
              (backend_kwargs !! "conn") in
    let backend_kwargs := delete "conn" backend_kwargs in
    match World.compile_literal world (TableLoader.engine self) query with
    | inl ex =>
        Raise (NotImplementedError (not_compiled_msg (Table.name (TableLoader.table self)) ex))
    | inr query_str =>
        Perform (ReadSql conn query_str backend_kwargs)
          match World.read_sql world conn query_str backend_kwargs with
          | Raised e => Raise e
          | Ok _ => Yield (ConnectorXResult conn query_str backend_kwargs) [] Return
          end
    end.

(** [TableLoader.load_rows] *)
Definition load_rows (self : TableLoader.t V) (backend_kwargs : option (gmap string PyVal))
  : Generator V :=
  (* make copy of kwargs *)
  let backend_kwargs : gmap string PyVal := default ∅ backend_kwargs in
  match make_query self with
  | Raised e => Raise e
  | Ok query =>
      if String.eqb (TableLoader.backend self) "connectorx"
      then _load_rows_connectorx self query backend_kwargs
      else _load_rows self query backend_kwargs
  end.

End Loading.

(** ** The extraction entry points *)

Inductive Credentials :=
| CredentialsEngine (engine : Engine.t)
| CredentialsConnectionString (credentials : URL.t)
| CredentialsStr (connection_string : string).

Section Extraction.
Context {V : Type}.
Variable world : World.t V.

(** [incremental.primary_key = primary_key] *)
Definition set_primary_key (inc : Incremental.t V) (primary_key : list string)
  : Incremental.t V :=
  {| Incremental.cursor_path := Incremental.cursor_path inc;
     Incremental.last_value := Incremental.last_value inc;
     Incremental.end_value := Incremental.end_value inc;
     Incremental.last_value_func := Incremental.last_value_func inc;
     Incremental.row_order := Incremental.row_order inc;
     Incremental.on_cursor_value_missing := Incremental.on_cursor_value_missing inc;
     Incremental.primary_key := Some primary_key |}.

(** The end of [table_rows]: the loader is built, its rows are yielded inside
    [try], and [finally] disposes the engine if it may be disposed. *)
Definition load_and_dispose (engine : Engine.t) (table : Table.t) (chunk_size : nat)
    (backend : string) (incremental : option (Incremental.t V))
    (columns : TTableSchemaColumns) (backend_kwargs : option (gmap string PyVal))
    (query_adapter_callback : option (Select.t V -> Table.t -> Select.t V))
  : Generator V :=
  match __init__ engine backend table columns chunk_size incremental query_adapter_callback with
  | Raised e => Raise e
  | Ok loader =>
      try_finally (load_rows world loader backend_kwargs)
        (* dispose the engine if created for this particular table *)
        (if Engine.getattr_may_dispose_after_use engine then [Disposed engine] else [])
  end.

(** [table_rows] *)
Definition table_rows (engine : Engine.t) (table : Table.t) (chunk_size : nat)
    (backend : string) (incremental : option (Incremental.t V))
    (defer_table_reflect : bool) (table_adapter_callback : option (Table.t -> Table.t))
    (reflection_level : string) (backend_kwargs : option (gmap string PyVal))
    (type_adapter_callback : option TTypeAdapter) (included_columns : option (list string))
    (query_adapter_callback : option (Select.t V -> Table.t -> Select.t V))
  : Generator V :=
  if defer_table_reflect then
    let table_name := Table.name table in
    let table := World.reflect world engine table in
    let table := World.default_table_adapter world table included_columns in
    let table :=
      match table_adapter_callback with
      | Some callback => callback table
      | None => table
      end in
    let columns := World.table_to_columns world table reflection_level type_adapter_callback in
    (* set the primary_key in the incremental *)
    let new_key :=
      match incremental with
      | Some inc =>
          match Incremental.primary_key inc with
          | None => World.get_primary_key world table
          | Some _ => None
          end
      | None => None
      end in
    let incremental :=
      match incremental, new_key with
      | Some inc, Some primary_key => Some (set_primary_key inc primary_key)
      | _, _ => incremental
      end in
    Perform (Reflected engine table_name)
      (perform_all (match new_key with Some primary_key => [PrimaryKeySet primary_key] | None => [] end)
         (* yield empty record to set hints *)
         (Yield
            (WithHints []
               {| Hints.primary_key := World.get_primary_key world table;
                  Hints.columns := columns |})
            []
            (load_and_dispose engine table chunk_size backend incremental columns
               backend_kwargs query_adapter_callback)))
  else
    (* table was already reflected *)
    let columns := World.table_to_columns world table reflection_level type_adapter_callback in
    load_and_dispose engine table chunk_size backend incremental columns
      backend_kwargs query_adapter_callback.

(** [setattr(engine, "may_dispose_after_use", may_dispose_after_use)] *)
Definition setattr_may_dispose_after_use (engine : Engine.t) (value : bool) : Engine.t :=
  {| Engine.url := Engine.url engine; Engine.may_dispose_after_use := Some value |}.

(** [engine_from_credentials] *)
Definition engine_from_credentials (credentials : Credentials) (may_dispose_after_use : bool)
    (backend_kwargs : gmap string PyVal) : Engine.t :=
  match credentials with
  | CredentialsEngine engine => engine
  | CredentialsConnectionString credentials =>
      let credentials := World.to_native_representation world credentials in
      let engine := World.create_engine world credentials backend_kwargs in
      setattr_may_dispose_after_use engine may_dispose_after_use
  | CredentialsStr credentials =>
      let engine := World.create_engine world credentials backend_kwargs in
      setattr_may_dispose_after_use engine may_dispose_after_use
  end.

End Extraction.


(** * Notions used to state the properties *)

(** The least number of batches of [k] rows that hold [n] rows. *)
Definition ceil_div (n k : nat) : nat := (n + k - 1) / k.

Section Notions.
Context {V : Type}.

(** The end-bound test joined to a lower-bound test when an end value is set. *)
Definition with_end_bound (op_end : operator.t) (column : Column.t) (end_value : option V)
    (lower : ClauseElement V) : ClauseElement V :=
  match end_value with
  | Some w => And_ lower (BinaryExpression op_end column w)
  | None => lower
  end.

(** The specification's cursor policy for missing values, in its words:
    [include] adds "OR cursor IS NULL" to the lower-bound predicate, and
    nothing when there is none; ... *)
Definition include_augmented (policy : string) (column : Column.t)
    (lower_bound : option (ClauseElement V)) : ClauseElement V :=
  match lower_bound with
  | Some bound => if bool_decide (policy = "include") then Or_ bound (IsNull column) else bound
  | None => PyTrue
  end.

(** ... [exclude] always adds "AND cursor IS NOT NULL", as a separate clause
    appended after the include-augmented one. *)
Definition exclude_appended (policy : string) (column : Column.t) (clause : ClauseElement V)
  : ClauseElement V :=
  if bool_decide (policy = "exclude") then And_ clause (IsNotNull column) else clause.

(** The WHERE criteria a predicate gives: none for the constant [True]. *)
Definition criteria (where_clause : ClauseElement V) : list (ClauseElement V) :=
  if is_not_True where_clause then [where_clause] else [].

(** [incremental.end_value] replaced. *)
Definition with_end_value (inc : Incremental.t V) (end_value : option V) : Incremental.t V :=
  {| Incremental.cursor_path := Incremental.cursor_path inc;
     Incremental.last_value := Incremental.last_value inc;
     Incremental.end_value := end_value;
     Incremental.last_value_func := Incremental.last_value_func inc;
     Incremental.row_order := Incremental.row_order inc;
     Incremental.on_cursor_value_missing := Incremental.on_cursor_value_missing inc;
     Incremental.primary_key := Incremental.primary_key inc |}.

(** How a generator ends when run to its end. *)
Fixpoint ending (gen : Generator V) : Outcome :=
  match gen with
  | Return => Exhausted
  | Raise e => Failed e
  | Perform _ next | Yield _ _ next => ending next
  end.

(** Every effect a generator can have: those along its run and those pending
    at its yields. *)
Fixpoint effects (gen : Generator V) : list (Event V) :=
  match gen with
  | Return | Raise _ => []
  | Perform event next => event :: effects next
  | Yield _ on_close next => on_close ++ effects next
  end.

(** The rows a data item holds. *)
Definition chunk_rows (item : TDataItem V) : list (Row.t V) :=
  match item with
  | RowDicts rows => map (λ mapping, {| Row._mapping := mapping |}) rows
  | DataFrame partition _ _ => partition
  | ArrowTable partition _ _ => partition
  | ConnectorXResult _ _ _ => []
  | WithHints items _ => items
  end.

(** The control record that carries the schema hints. *)
Definition is_control_record (item : TDataItem V) : bool :=
  match item with
  | WithHints _ _ => true
  | _ => false
  end.

Definition in_process (backend : string) : Prop :=
  backend = "sqlalchemy" ∨ backend = "pandas" ∨ backend = "pyarrow".

(** The table the loader is built on: the given one, or with deferred
    reflection the reflected and adapted one. *)
Definition loaded_table (world : World.t V) (engine : Engine.t) (table : Table.t) (defer_table_reflect : bool)
    (table_adapter_callback : option (Table.t → Table.t))
    (included_columns : option (list string)) : Table.t :=
  if defer_table_reflect then
    let table := World.default_table_adapter world (World.reflect world engine table)
                   included_columns in
    match table_adapter_callback with
    | Some callback => callback table
    | None => table
    end
  else table.

(** The effects by which the built query reaches the database or ConnectorX:
    opening the connection, executing the query, the bulk read. *)
Definition is_query_event (event : Event V) : bool :=
  match event with
  | Connected _ | Executed _ _ | ReadSql _ _ _ => true
  | Reflected _ _ | PrimaryKeySet _ | ConnectionClosed _ | Disposed _ => false
  end.

End Notions.

(** * The other helpers of the module *)

(** ** [unwrap_json_connector_x]

    A pyarrow table of string columns: the named columns in their order, each
    with its cells, [None] for null. *)
Module pa.
Abbreviation Table := (list (string * list (option string))).

Inductive Error :=
| ValueError (msg : string)
| KeyError (msg : string).

(** [table.column_names] *)
Definition column_names (table : Table) : list string := map fst table.

(** [names.index(field)]: the first position of [field]; [ValueError] if
    there is none. *)
Fixpoint index (names : list string) (field : string) : Error + nat :=
  match names with
  | [] => inl (ValueError ("'" +:+ field +:+ "' is not in list"))
  | name :: rest =>
      if String.eqb name field then inr 0
      else match index rest field with
           | inr i => inr (S i)
           | inl e => inl e
           end
  end.

(** [table[field]]: the column of that name; [KeyError] unless exactly one
    column has it (the messages are abridged). *)
Definition getitem (table : Table) (field : string) : Error + list (option string) :=
  match List.filter (λ column, String.eqb column.1 field) table with
  | [column] => inr column.2
  | [] => inl (KeyError ("Field " +:+ field +:+ " does not exist in schema"))
  | _ => inl (KeyError ("Field " +:+ field +:+ " exists several times in schema"))
  end.

(** [pc.equal(column, value)]: null on a null cell. *)
Definition equal (column : list (option string)) (value : string) : list (option bool) :=
  map (λ cell : option string, (λ s, String.eqb s value) <$> cell) column.

(** [pc.replace_with_mask(column, mask, replacement)] with one replacement
    value: the replacement where the mask is true, the cell where it is false,
    null where it is null. *)
Definition replace_with_mask (column : list (option string)) (mask : list (option bool))
    (replacement : option string) : list (option string) :=
  zip_with (λ cell flag,
              match flag with
              | Some true => replacement
              | Some false => cell
              | None => None
              end) column mask.

(** [table.set_column(i, table.schema.field(i), column)]: the column at
    position [i] replaced, under the name it had. *)
Definition set_column (table : Table) (i : nat) (column : list (option string)) : Table :=
  match table !! i with
  | Some (name, _) => <[i := (name, column)]> table
  | None => table
  end.
End pa.

(** [unwrap_json_connector_x(field)], the transform it returns. *)
Definition unwrap_json_connector_x (field : string) (table : pa.Table) : pa.Error + pa.Table :=
  match pa.index (pa.column_names table) field with
  | inl e => inl e
  | inr col_index =>
      match pa.getitem table field with
      | inl e => inl e
      | inr column =>
          (* convert json null to null *)
          let column := pa.replace_with_mask column (pa.equal column "null") None in
          inr (pa.set_column table col_index column)
      end
  end.

(** * Further notions *)

Section MoreNotions.
Context {V : Type}.

(** The columns a clause mentions. *)
Fixpoint clause_columns (clause : ClauseElement V) : list Column.t :=
  match clause with
  | PyTrue => []
  | BinaryExpression _ column _ | IsNull column | IsNotNull column => [column]
  | And_ l r | Or_ l r => clause_columns l ++ clause_columns r
  end.

Definition order_column (clause : UnaryExpression) : Column.t :=
  match clause with
  | Asc column | Desc column => column
  end.

(** The columns a query mentions in its WHERE criteria and its ORDER BY. *)
Definition query_columns (query : Select.t V) : list Column.t :=
  concat (clause_columns <$> Select.whereclause query)
  ++ (order_column <$> Select.order_by_clauses query).

(** The values a clause compares the cursor with. *)
Fixpoint clause_values (clause : ClauseElement V) : list V :=
  match clause with
  | BinaryExpression _ _ value => [value]
  | And_ l r | Or_ l r => clause_values l ++ clause_values r
  | PyTrue | IsNull _ | IsNotNull _ => []
  end.

Definition is_disposal (event : Event V) : bool :=
  match event with
  | Disposed _ => true
  | _ => false
  end.

End MoreNotions.

(** A cell with the JSON text [null] turned into a null cell. *)
Definition json_null_to_null (cell : option string) : option string :=
  if bool_decide (cell = Some "null") then None else cell.

(** A table with the cells of the columns named [field] unwrapped. *)
Definition unwrapped (field : string) (table : pa.Table) : pa.Table :=
  map (λ column : string * list (option string),
         (column.1,
          if String.eqb column.1 field then map json_null_to_null column.2 else column.2))
      table.

(** * A worked extraction: the table [events(id INT, ts TIMESTAMP, val INT)] *)

Definition ts_column : Column.t := {| Column.name := "ts"; Column.type_ := "TIMESTAMP" |}.

Definition events : Table.t :=
  {| Table.name := "events";
     Table.schema := None;
     Table.c := [ {| Column.name := "id"; Column.type_ := "INT" |};
                  ts_column;
                  {| Column.name := "val"; Column.type_ := "INT" |} ] |}.

(** Timestamps are written as integers: 20240101 is 2024-01-01. *)
Definition events_row (id ts val : Z) : Row.t Z :=
  {| Row._mapping := [("id", Some id); ("ts", Some ts); ("val", Some val)] |}.

Definition events_rows : list (Row.t Z) :=
  [ events_row 1 20231231 10; events_row 2 20240101 20;
    events_row 3 20240102 30; events_row 4 20240103 40 ].

Definition compare_Z (op : operator.t) (x y : Z) : bool :=
  match op with
  | operator.ge => (y <=? x)%Z
  | operator.lt => (x <? y)%Z
  | operator.le => (x <=? y)%Z
  | operator.gt => (y <? x)%Z
  end.

(** The driver name and the rest of a connection string [driver://rest]. *)
Fixpoint url_drivername (connection_string : string) : string :=
  match connection_string with
  | EmptyString => EmptyString
  | String ch rest =>
      if Ascii.eqb ch ":"%char then EmptyString else String ch (url_drivername rest)
  end.
Fixpoint url_location (connection_string : string) : string :=
  match connection_string with
  | EmptyString => EmptyString
  | String ch rest =>
      if Ascii.eqb ch ":"%char then
        match rest with
        | String _ (String _ location) => location
        | _ => EmptyString
        end
      else url_location rest
  end.

(** A database that holds [events_rows], reflects [events], has ConnectorX
    installed and cannot render the queries as literal SQL. *)
Definition events_world : World.t Z :=
  {| World.reflect := λ _ table,
       {| Table.name := Table.name table; Table.schema := Table.schema table;
          Table.c := Table.c events |};
     World.default_table_adapter := λ table _, table;
     World.table_to_columns := λ table _ _,
       map (λ column, (Column.name column, Column.type_ column)) (Table.c table);
     World.get_primary_key := λ _, Some ["id"];
     World.connect := λ _, Ok ();
     World.execute := λ _ query _,
       Ok {| ExecResult.keys := map Column.name (Table.c (Select.froms query));
             ExecResult.rows := List.filter (selects compare_Z query) events_rows;
             ExecResult.failure := None |};
     World.connectorx_importable := true;
     World.compile_literal := λ _ _, inl "literal value not rendered";
     World.read_sql := λ _ _ _, Ok ();
     World.to_native_representation := URL.render_as_string;
     World.create_engine := λ connection_string _,
       {| Engine.url := {| URL.drivername := url_drivername connection_string;
                           URL.location := url_location connection_string |};
          Engine.may_dispose_after_use := None |} |}.

(** An engine created for this extraction alone. *)
Definition events_engine : Engine.t :=
  engine_from_credentials events_world (CredentialsStr "sqlite:///events.db") true ∅.

Definition events_cursor : Incremental.t Z :=
  {| Incremental.cursor_path := "ts";
     Incremental.last_value := Some 20240101%Z;
     Incremental.end_value := None;
     Incremental.last_value_func := builtin_max;
     Incremental.row_order := Some "asc";
     Incremental.on_cursor_value_missing := "raise";
     Incremental.primary_key := None |}.

(** The same cursor state with an end value and the policy [exclude]. *)
Definition events_window : Incremental.t Z :=
  {| Incremental.cursor_path := "ts";
     Incremental.last_value := Some 20240101%Z;
     Incremental.end_value := Some 20240103%Z;
     Incremental.last_value_func := builtin_max;
     Incremental.row_order := Some "asc";
     Incremental.on_cursor_value_missing := "exclude";
     Incremental.primary_key := None |}.

(** A cursor on a column that [events] does not have. *)
Definition events_bad_cursor : Incremental.t Z :=
  {| Incremental.cursor_path := "updated_at";
     Incremental.last_value := None;
     Incremental.end_value := None;
     Incremental.last_value_func := builtin_max;
     Incremental.row_order := None;
     Incremental.on_cursor_value_missing := "raise";
     Incremental.primary_key := None |}.

(** A first run: no last value yet, an end value, the policy [exclude]. *)
Definition events_first_run : Incremental.t Z :=
  {| Incremental.cursor_path := "ts";
     Incremental.last_value := None;
     Incremental.end_value := Some 20240103%Z;
     Incremental.last_value_func := builtin_min;
     Incremental.row_order := None;
     Incremental.on_cursor_value_missing := "exclude";
     Incremental.primary_key := None |}.

(** A cursor with a last-value function of the caller's own. *)
Definition events_custom : Incremental.t Z :=
  {| Incremental.cursor_path := "ts";
     Incremental.last_value := Some 20240101%Z;
     Incremental.end_value := Some 20240103%Z;
     Incremental.last_value_func := custom_func (λ values, last values);
     Incremental.row_order := Some "desc";
     Incremental.on_cursor_value_missing := "include";
     Incremental.primary_key := None |}.

Definition events_loader : TableLoader.t Z :=
  {| TableLoader.engine := events_engine;
     TableLoader.backend := "sqlalchemy";
     TableLoader.table := events;
     TableLoader.columns := [];
     TableLoader.chunk_size := 2;
     TableLoader.query_adapter_callback := None;
     TableLoader.incremental := Some events_cursor;
     TableLoader.cursor_column := Some ts_column;
     TableLoader.last_value := Some 20240101%Z;
     TableLoader.end_value := None;
     TableLoader.row_order := Some "asc";
     TableLoader.on_cursor_value_missing := Some "raise" |}.

Definition events_query : Select.t Z :=
  {| Select.froms := events;
     Select.whereclause := [BinaryExpression operator.ge ts_column 20240101%Z];
     Select.order_by_clauses := [Asc ts_column] |}.

(** The loader of [events] for another backend. *)
Definition events_backend_loader (backend : string) : TableLoader.t Z :=
  {| TableLoader.engine := events_engine;
     TableLoader.backend := backend;
     TableLoader.table := events;
     TableLoader.columns := [("id", "bigint"); ("ts", "timestamp"); ("val", "bigint")];
     TableLoader.chunk_size := 2;
     TableLoader.query_adapter_callback := None;
     TableLoader.incremental := Some events_cursor;
     TableLoader.cursor_column := Some ts_column;
     TableLoader.last_value := Some 20240101%Z;
     TableLoader.end_value := None;
     TableLoader.row_order := Some "asc";
     TableLoader.on_cursor_value_missing := Some "raise" |}.

(** The database of [events] with other surroundings: ConnectorX installed
    or not, the outcome of compiling a query to literal SQL, and the error, if
    any, with which fetching fails after the rows. *)
Definition events_world_with (connectorx_importable : bool) (compiled : string + string)
    (failure : option Exn) : World.t Z :=
  {| World.reflect := World.reflect events_world;
     World.default_table_adapter := World.default_table_adapter events_world;
     World.table_to_columns := World.table_to_columns events_world;
     World.get_primary_key := World.get_primary_key events_world;
     World.connect := World.connect events_world;
     World.execute := λ _ query _,
       Ok {| ExecResult.keys := map Column.name (Table.c (Select.froms query));
             ExecResult.rows := List.filter (selects compare_Z query) events_rows;
             ExecResult.failure := failure |};
     World.connectorx_importable := connectorx_importable;
     World.compile_literal := λ _ _, compiled;
     World.read_sql := World.read_sql events_world;
     World.to_native_representation := World.to_native_representation events_world;
     World.create_engine := World.create_engine events_world |}.

(** An engine of the caller, without the flag [may_dispose_after_use]. *)
Definition events_shared_engine : Engine.t :=
  {| Engine.url := {| URL.drivername := "postgresql+psycopg2";
                      URL.location := "loader@db/events" |};
     Engine.may_dispose_after_use := None |}.

(** A table read through ConnectorX, with a JSON column. *)
Definition payloads : pa.Table :=
  [ ("id", [Some "1"; Some "2"; Some "3"]);
    ("payload", [Some "[1, 2]"; Some "null"; None]) ].

(** * Properties of the query builder *)

Section QueryProperties.
Context {V : Type}.
Implicit Types (inc : Incremental.t V) (column : Column.t) (v w : V).

Lemma bool_decide_Some (a b : string) :
  bool_decide (Some a = Some b) = bool_decide (a = b).
Proof. apply bool_decide_ext. split; [by intros [= ->] | by intros ->]. Qed.

(** A loader built for a cursor state has found the cursor column. *)
Lemma init_with_incremental engine backend table columns chunk_size inc callback loader :
  __init__ engine backend table columns chunk_size (Some inc) callback = Ok loader →
  ∃ column,
    Table.c_getitem table (Incremental.cursor_path inc) = Ok column ∧
    TableLoader.table loader = table ∧
    TableLoader.incremental loader = Some inc ∧
    TableLoader.cursor_column loader = Some column ∧
    TableLoader.last_value loader = Incremental.last_value inc ∧
    TableLoader.end_value loader = Incremental.end_value inc ∧
    TableLoader.row_order loader = Incremental.row_order inc ∧
    TableLoader.on_cursor_value_missing loader = Some (Incremental.on_cursor_value_missing inc).
Proof.
  unfold __init__. destruct (Table.c_getitem _ _) as [column|e] eqn:Hcol.
  - intros [= <-]. exists column. simpl. done.
  - destruct e; simpl; intros [=].
Qed.

(** The query a loader builds under [max] or [min], as the specification's
    cursor policy composes it. *)
Lemma make_query_max_min loader table inc column op op_end :
  TableLoader.table loader = table →
  TableLoader.incremental loader = Some inc →
  TableLoader.cursor_column loader = Some column →
  TableLoader.last_value loader = Incremental.last_value inc →
  TableLoader.end_value loader = Incremental.end_value inc →
  TableLoader.row_order loader = Incremental.row_order inc →
  TableLoader.on_cursor_value_missing loader = Some (Incremental.on_cursor_value_missing inc) →
  (Incremental.last_value_func inc = builtin_max ∧ op = operator.ge ∧ op_end = operator.lt) ∨
  (Incremental.last_value_func inc = builtin_min ∧ op = operator.le ∧ op_end = operator.gt) →
  ∃ query,
    _make_query loader = Ok query ∧
    Select.froms query = table ∧
    Select.whereclause query =
      criteria
        (exclude_appended (Incremental.on_cursor_value_missing inc) column
           (include_augmented (Incremental.on_cursor_value_missing inc) column
              ((λ v, with_end_bound op_end column (Incremental.end_value inc)
                       (BinaryExpression op column v)) <$> Incremental.last_value inc))) ∧
    Select.order_by_clauses query =
      match Incremental.row_order inc with
      | Some order =>
          if bool_decide (order = "asc") then
            [if is_max (Incremental.last_value_func inc) then Asc column else Desc column]
          else if bool_decide (order = "desc") then
            [if is_max (Incremental.last_value_func inc) then Desc column else Asc column]
          else []
      | None => []
      end.
Proof.
  intros Ht Hi Hc Hl He Hr Hm Hf.
  unfold _make_query. rewrite Ht, Hi, Hc, Hl, He, Hr, Hm.
  unfold exclude_appended, include_augmented, with_end_bound, criteria.
  rewrite !bool_decide_Some.
  assert (Horder : ∀ order : string,
             bool_decide (order = "asc") = true → bool_decide (order = "desc") = false).
  { intros order ->%bool_decide_eq_true. done. }
  destruct Hf as [(-> & -> & ->)|(-> & -> & ->)]; simpl;
    destruct (Incremental.last_value inc) as [v|]; simpl;
    destruct (Incremental.end_value inc) as [w|]; simpl;
    generalize (bool_decide (Incremental.on_cursor_value_missing inc = "include")),
               (bool_decide (Incremental.on_cursor_value_missing inc = "exclude"));
    intros [] []; simpl;
    (destruct (Incremental.row_order inc) as [order|]; simpl;
     [ rewrite ?bool_decide_Some; specialize (Horder order);
       destruct (bool_decide (order = "asc")), (bool_decide (order = "desc"));
       try (by discriminate Horder); simpl
     | ]);
    eexists; (split; [reflexivity|]); done.
Qed.

(** The cursor column of the table is found: the loader is built. *)
Lemma init_found engine backend table columns chunk_size inc callback column :
  Table.c_getitem table (Incremental.cursor_path inc) = Ok column →
  ∃ loader,
    __init__ engine backend table columns chunk_size (Some inc) callback = Ok loader.
Proof. intros Hcol. unfold __init__. rewrite Hcol. eauto. Qed.

(** Building the query for a cursor state whose column the table has. *)
Lemma make_query_found engine backend table columns chunk_size inc callback column op op_end :
  Table.c_getitem table (Incremental.cursor_path inc) = Ok column →
  (Incremental.last_value_func inc = builtin_max ∧ op = operator.ge ∧ op_end = operator.lt) ∨
  (Incremental.last_value_func inc = builtin_min ∧ op = operator.le ∧ op_end = operator.gt) →
  ∃ loader query,
    __init__ engine backend table columns chunk_size (Some inc) callback = Ok loader ∧
    _make_query loader = Ok query ∧
    Select.froms query = table ∧
    Select.whereclause query =
      criteria
        (exclude_appended (Incremental.on_cursor_value_missing inc) column
           (include_augmented (Incremental.on_cursor_value_missing inc) column
              ((λ v, with_end_bound op_end column (Incremental.end_value inc)
                       (BinaryExpression op column v)) <$> Incremental.last_value inc))) ∧
    Select.order_by_clauses query =
      match Incremental.row_order inc with
      | Some order =>
          if bool_decide (order = "asc") then
            [if is_max (Incremental.last_value_func inc) then Asc column else Desc column]
          else if bool_decide (order = "desc") then
            [if is_max (Incremental.last_value_func inc) then Desc column else Asc column]
          else []
      | None => []
      end.
Proof.
  intros Hcol Hf.
  destruct (init_found engine backend table columns chunk_size inc callback column Hcol)
    as [loader Hinit].
  destruct (init_with_incremental _ _ _ _ _ _ _ _ Hinit)
    as (column' & Hcol' & Ht & Hi & Hc & Hl & He & Hr & Hm).
  assert (column' = column) as -> by congruence.
  destruct (make_query_max_min loader table inc column op op_end Ht Hi Hc Hl He Hr Hm Hf)
    as (query & Hq & Hrest).
  exists loader, query. done.
Qed.

Section Rows.
Variable compare : operator.t → V → V → bool.

(** A query whose criteria come from one predicate selects the rows on which
    the predicate is TRUE. *)
Lemma selects_criteria (query : Select.t V) where_clause row :
  Select.whereclause query = criteria where_clause →
  selects compare query row = true ↔ eval compare row where_clause = Some true.
Proof.
  unfold selects, criteria. intros ->.
  destruct where_clause; simpl; rewrite ?andb_true_r, ?bool_decide_eq_true; done.
Qed.

(** The rows on which a bounded predicate, composed with the policy for
    missing values, is TRUE. *)
Lemma eval_bounded policy column op v op_end (end_value : option V) row :
  eval compare row
    (exclude_appended policy column
       (include_augmented policy column
          (Some (with_end_bound op_end column end_value (BinaryExpression op column v)))))
    = Some true
  ↔ match Row.cell row (Column.name column) with
    | Some x => compare op x v = true ∧ ∀ w, end_value = Some w → compare op_end x w = true
    | None => policy = "include"
    end.
Proof.
  unfold exclude_appended, include_augmented, with_end_bound.
  destruct (bool_decide (policy = "include")) eqn:Hinc;
    [apply bool_decide_eq_true in Hinc | apply bool_decide_eq_false in Hinc];
    (destruct (bool_decide (policy = "exclude")) eqn:Hexc;
     [apply bool_decide_eq_true in Hexc | apply bool_decide_eq_false in Hexc]);
    try (subst; discriminate);
    destruct end_value as [w|]; simpl;
    destruct (Row.cell row (Column.name column)) as [x|]; simpl;
    try destruct (compare op x v); try destruct (compare op_end x w) eqn:Hw; simpl;
    (split;
     [ intros ?; try done; try (split; [done|intros ? [= <-]; done])
     | intros Hb; try done;
       try (destruct Hb as [Hb1 Hb2]; try discriminate Hb1; try specialize (Hb2 w eq_refl));
       congruence ]).
Qed.

End Rows.

(** C1. For a cursor state with a last value [v] whose column the table has,
    the loader is built and its query has one WHERE criterion. Under [max] it
    is the test [cursor >= v], joined by AND to [cursor < w] when an end value
    [w] is set; under [min] it is [cursor <= v], joined to [cursor > w]. In both
    cases the criterion is then composed with the policy for missing values,
    so that the query selects exactly the rows whose cursor value passes these
    tests, and the rows with a NULL cursor under the policy [include]. *)
Theorem make_query_bounds engine backend table columns chunk_size inc callback column v :
  Table.c_getitem table (Incremental.cursor_path inc) = Ok column →
  Incremental.last_value inc = Some v →
  Incremental.last_value_func inc = builtin_max ∨
  Incremental.last_value_func inc = builtin_min →
  ∃ loader query,
    __init__ engine backend table columns chunk_size (Some inc) callback = Ok loader ∧
    _make_query loader = Ok query ∧
    (Incremental.last_value_func inc = builtin_max →
       Select.whereclause query =
         [exclude_appended (Incremental.on_cursor_value_missing inc) column
            (include_augmented (Incremental.on_cursor_value_missing inc) column
               (Some match Incremental.end_value inc with
                     | Some w =>
                         And_ (BinaryExpression operator.ge column v)
                              (BinaryExpression operator.lt column w)
                     | None => BinaryExpression operator.ge column v
                     end))] ∧
       ∀ compare row,
         selects compare query row = true ↔
         match Row.cell row (Column.name column) with
         | Some x =>
             compare operator.ge x v = true ∧
             ∀ w, Incremental.end_value inc = Some w → compare operator.lt x w = true
         | None => Incremental.on_cursor_value_missing inc = "include"
         end) ∧
    (Incremental.last_value_func inc = builtin_min →
       Select.whereclause query =
         [exclude_appended (Incremental.on_cursor_value_missing inc) column
            (include_augmented (Incremental.on_cursor_value_missing inc) column
               (Some match Incremental.end_value inc with
                     | Some w =>
                         And_ (BinaryExpression operator.le column v)
                              (BinaryExpression operator.gt column w)
                     | None => BinaryExpression operator.le column v
                     end))] ∧
       ∀ compare row,
         selects compare query row = true ↔
         match Row.cell row (Column.name column) with
         | Some x =>
             compare operator.le x v = true ∧
             ∀ w, Incremental.end_value inc = Some w → compare operator.gt x w = true
         | None => Incremental.on_cursor_value_missing inc = "include"
         end).
Proof.
  intros Hcol Hv Hf.
  assert (Hone : ∀ policy (bound : ClauseElement V),
            criteria (exclude_appended policy column
                        (include_augmented policy column (Some bound)))
            = [exclude_appended policy column
                 (include_augmented policy column (Some bound))]
            ∨ bound = PyTrue).
  { intros policy bound. unfold criteria, exclude_appended, include_augmented.
    repeat case_bool_decide; simpl; auto. destruct bound; simpl; auto. }
  assert (Hgen : ∀ op op_end,
    (Incremental.last_value_func inc = builtin_max ∧ op = operator.ge ∧ op_end = operator.lt) ∨
    (Incremental.last_value_func inc = builtin_min ∧ op = operator.le ∧ op_end = operator.gt) →
    ∃ loader query,
      __init__ engine backend table columns chunk_size (Some inc) callback = Ok loader ∧
      _make_query loader = Ok query ∧
      Select.whereclause query =
        [exclude_appended (Incremental.on_cursor_value_missing inc) column
           (include_augmented (Incremental.on_cursor_value_missing inc) column
              (Some (with_end_bound op_end column (Incremental.end_value inc)
                       (BinaryExpression op column v))))] ∧
      ∀ compare row,
        selects compare query row = true ↔
        match Row.cell row (Column.name column) with
        | Some x =>
            compare op x v = true ∧
            ∀ w, Incremental.end_value inc = Some w → compare op_end x w = true
        | None => Incremental.on_cursor_value_missing inc = "include"
        end).
  { intros op op_end Hops.
    destruct (make_query_found engine backend table columns chunk_size inc callback
                column op op_end Hcol Hops) as (loader & query & Hinit & Hq & _ & Hw & _).
    rewrite Hv in Hw.
    exists loader, query. split; [done|]. split; [done|]. split.
    - destruct (Hone (Incremental.on_cursor_value_missing inc)
                  (with_end_bound op_end column (Incremental.end_value inc)
                     (BinaryExpression op column v))) as [Hcrit|Htrue].
      + exact (eq_trans Hw Hcrit).
      + unfold with_end_bound in Htrue. by destruct (Incremental.end_value inc).
    - intros compare row. rewrite (selects_criteria compare query _ row Hw).
      apply eval_bounded. }
  destruct Hf as [Hf|Hf].
  - destruct (Hgen operator.ge operator.lt) as (loader & query & Hinit & Hq & Hw & Hsel);
      [by left|].
    exists loader, query. split; [done|]. split; [done|]. split.
    + intros _. split; [|done]. rewrite Hw. unfold with_end_bound.
      by destruct (Incremental.end_value inc).
    + intros Hmin. congruence.
  - destruct (Hgen operator.le operator.gt) as (loader & query & Hinit & Hq & Hw & Hsel);
      [by right|].
    exists loader, query. split; [done|]. split; [done|]. split.
    + intros Hmax. congruence.
    + intros _. split; [|done]. rewrite Hw. unfold with_end_bound.
      by destruct (Incremental.end_value inc).
Qed.

(** C2. Under [max] or [min], the WHERE predicate is the lower-bound
    predicate (with its end bound), augmented by the policy [include] and then
    extended by the policy [exclude], in this order. With [include] and a last
    value the predicate is "bound OR cursor IS NULL"; with [include] and no
    last value nothing is added; with [exclude] the clause "AND cursor IS NOT
    NULL" is the outermost one, whether or not a last value is set. *)
Theorem make_query_missing_values engine backend table columns chunk_size inc callback column :
  Table.c_getitem table (Incremental.cursor_path inc) = Ok column →
  Incremental.last_value_func inc = builtin_max ∨
  Incremental.last_value_func inc = builtin_min →
  ∃ loader query lower_bound,
    __init__ engine backend table columns chunk_size (Some inc) callback = Ok loader ∧
    _make_query loader = Ok query ∧
    lower_bound =
      (λ v, with_end_bound
              (if is_max (Incremental.last_value_func inc) then operator.lt else operator.gt)
              column (Incremental.end_value inc)
              (BinaryExpression
                 (if is_max (Incremental.last_value_func inc) then operator.ge else operator.le)
                 column v)) <$> Incremental.last_value inc ∧
    Select.whereclause query =
      criteria
        (exclude_appended (Incremental.on_cursor_value_missing inc) column
           (include_augmented (Incremental.on_cursor_value_missing inc) column lower_bound)) ∧
    (Incremental.on_cursor_value_missing inc = "include" →
       match lower_bound with
       | Some bound => Select.whereclause query = [Or_ bound (IsNull column)]
       | None => Select.whereclause query = []
       end) ∧
    (Incremental.on_cursor_value_missing inc = "exclude" →
       Select.whereclause query = [And_ (default PyTrue lower_bound) (IsNotNull column)]).
Proof.
  intros Hcol Hf.
  set (op := if is_max (Incremental.last_value_func inc) then operator.ge else operator.le).
  set (op_end := if is_max (Incremental.last_value_func inc) then operator.lt else operator.gt).
  destruct (make_query_found engine backend table columns chunk_size inc callback
              column op op_end Hcol) as (loader & query & Hinit & Hq & _ & Hw & _).
  { subst op op_end. destruct Hf as [->| ->]; simpl; auto. }
  eexists loader, query, _. split; [done|]. split; [done|]. split; [reflexivity|].
  split; [done|]. rewrite Hw. split.
  - intros ->. unfold criteria, exclude_appended, include_augmented.
    destruct (Incremental.last_value inc); simpl; done.
  - intros ->. unfold criteria, exclude_appended, include_augmented.
    destruct (Incremental.last_value inc); simpl; done.
Qed.

(** C3. Under [max] or [min], the query is ordered by the cursor column
    exactly when the row order is [asc] or [desc]: ascending for [asc] under
    [max] and for [desc] under [min], descending for [asc] under [min] and for
    [desc] under [max]; with no row order there is no ORDER BY. *)
Theorem make_query_order_by engine backend table columns chunk_size inc callback column :
  Table.c_getitem table (Incremental.cursor_path inc) = Ok column →
  Incremental.last_value_func inc = builtin_max ∨
  Incremental.last_value_func inc = builtin_min →
  ∃ loader query,
    __init__ engine backend table columns chunk_size (Some inc) callback = Ok loader ∧
    _make_query loader = Ok query ∧
    ((Incremental.row_order inc = Some "asc" ∧ Incremental.last_value_func inc = builtin_max) ∨
     (Incremental.row_order inc = Some "desc" ∧ Incremental.last_value_func inc = builtin_min) →
       Select.order_by_clauses query = [Asc column]) ∧
    ((Incremental.row_order inc = Some "asc" ∧ Incremental.last_value_func inc = builtin_min) ∨
     (Incremental.row_order inc = Some "desc" ∧ Incremental.last_value_func inc = builtin_max) →
       Select.order_by_clauses query = [Desc column]) ∧
    (Incremental.row_order inc = None → Select.order_by_clauses query = []) ∧
    (Select.order_by_clauses query ≠ [] ↔
       Incremental.row_order inc = Some "asc" ∨ Incremental.row_order inc = Some "desc").
Proof.
  intros Hcol Hf.
  set (op := if is_max (Incremental.last_value_func inc) then operator.ge else operator.le).
  set (op_end := if is_max (Incremental.last_value_func inc) then operator.lt else operator.gt).
  destruct (make_query_found engine backend table columns chunk_size inc callback
              column op op_end Hcol) as (loader & query & Hinit & Hq & _ & _ & Ho).
  { subst op op_end. destruct Hf as [->| ->]; simpl; auto. }
  exists loader, query. split; [done|]. split; [done|]. rewrite Ho. clear Ho Hq Hinit.
  destruct (Incremental.row_order inc) as [order|].
  - destruct (decide (order = "asc")) as [->|Hasc];
      [|destruct (decide (order = "desc")) as [->|Hdesc]].
    + simpl. destruct Hf as [->| ->]; simpl; repeat split; try done;
        try (intros [[? ?]|[? ?]]; congruence); auto.
    + simpl. destruct Hf as [->| ->]; simpl; repeat split; try done;
        try (intros [[? ?]|[? ?]]; congruence); auto.
    + rewrite !bool_decide_eq_false_2 by done.
      repeat split; try done; try (intros [[? ?]|[? ?]]; congruence).
      intros [?|?]; congruence.
  - repeat split; try done; try (intros [[? ?]|[? ?]]; congruence).
    intros [?|?]; congruence.
Qed.

(** C4. Under a custom last-value function the query is the bare selection of
    the table: no WHERE criterion and no ORDER BY, whatever the last value, end
    value, row order and policy for missing values are; every row is selected. *)
Theorem make_query_custom engine backend table columns chunk_size inc callback column f :
  Table.c_getitem table (Incremental.cursor_path inc) = Ok column →
  Incremental.last_value_func inc = custom_func f →
  ∃ loader,
    __init__ engine backend table columns chunk_size (Some inc) callback = Ok loader ∧
    _make_query loader = Ok (Select.select table) ∧
    Select.whereclause (Select.select (V:=V) table) = [] ∧
    Select.order_by_clauses (Select.select (V:=V) table) = [] ∧
    (callback = None → make_query loader = Ok (Select.select table)) ∧
    ∀ (compare : operator.t → V → V → bool) row,
      selects compare (Select.select table) row = true.
Proof.
  intros Hcol Hf. unfold __init__. rewrite Hcol. eexists. split; [reflexivity|].
  assert (Hq : ∀ loader : TableLoader.t V,
             TableLoader.table loader = table →
             TableLoader.incremental loader = Some inc →
             _make_query loader = Ok (Select.select table)).
  { intros loader Ht Hi. unfold _make_query. rewrite Ht, Hi, Hf. done. }
  split; [by apply Hq|]. split; [done|]. split; [done|]. split; [|done].
  intros ->. unfold make_query. simpl. by apply Hq.
Qed.

(** C10. Under [max] or [min] with no last value, the query has no bound at
    all: its only possible WHERE criterion is the one of the policy [exclude],
    which holds exactly on the rows with a non-NULL cursor, and the query is
    the same whatever the end value is. *)
Theorem make_query_no_last_value engine backend table columns chunk_size inc callback column :
  Table.c_getitem table (Incremental.cursor_path inc) = Ok column →
  Incremental.last_value inc = None →
  Incremental.last_value_func inc = builtin_max ∨
  Incremental.last_value_func inc = builtin_min →
  ∃ loader query,
    __init__ engine backend table columns chunk_size (Some inc) callback = Ok loader ∧
    _make_query loader = Ok query ∧
    Select.whereclause query =
      (if bool_decide (Incremental.on_cursor_value_missing inc = "exclude")
       then [And_ PyTrue (IsNotNull column)] else []) ∧
    (∀ compare row,
       selects compare query row = true ↔
       (Incremental.on_cursor_value_missing inc = "exclude" →
        is_Some (Row.cell row (Column.name column)))) ∧
    ∀ end_value, ∃ loader',
      __init__ engine backend table columns chunk_size
        (Some (with_end_value inc end_value)) callback = Ok loader' ∧
      _make_query loader' = Ok query.
Proof.
  intros Hcol Hv Hf.
  set (op := if is_max (Incremental.last_value_func inc) then operator.ge else operator.le).
  set (op_end := if is_max (Incremental.last_value_func inc) then operator.lt else operator.gt).
  assert (Hops :
    (Incremental.last_value_func inc = builtin_max ∧ op = operator.ge ∧ op_end = operator.lt) ∨
    (Incremental.last_value_func inc = builtin_min ∧ op = operator.le ∧ op_end = operator.gt)).
  { subst op op_end. destruct Hf as [->| ->]; simpl; auto. }
  destruct (make_query_found engine backend table columns chunk_size inc callback
              column op op_end Hcol Hops) as (loader & query & Hinit & Hq & Ht & Hw & Ho).
  rewrite Hv in Hw. simpl in Hw.
  assert (Hw' : Select.whereclause query =
                if bool_decide (Incremental.on_cursor_value_missing inc = "exclude")
                then [And_ PyTrue (IsNotNull column)] else []).
  { rewrite Hw. unfold criteria, exclude_appended. by case_bool_decide. }
  exists loader, query. split; [done|]. split; [done|]. split; [done|]. split.
  - intros compare row. unfold selects. rewrite Hw'. case_bool_decide as Hexc; simpl.
    + rewrite andb_true_r, bool_decide_eq_true.
      destruct (Row.cell row (Column.name column)) as [x|]; simpl.
      * split; [eauto|done].
      * split; [done|]. intros Hx. destruct (Hx Hexc) as [? [=]].
    + split; [|done]. intros _ ?. done.
  - intros end_value.
    destruct (make_query_found engine backend table columns chunk_size
                (with_end_value inc end_value) callback column op op_end Hcol Hops)
      as (loader' & query' & Hinit' & Hq' & Ht' & Hw2 & Ho').
    exists loader'. split; [done|]. rewrite Hq'. f_equal.
    simpl in Hw2, Ho'. rewrite Hv in Hw2. simpl in Hw2.
    destruct query, query'. simpl in *. congruence.
Qed.

End QueryProperties.

(** * Properties of generators *)

Section GeneratorProperties.
Context {V : Type}.
Implicit Types (gen body : Generator V) (cleanup : list (Event V)).

Lemma yields_perform_all events gen : yields (perform_all events gen) = yields gen.
Proof. induction events; simpl; auto. Qed.

Lemma yields_try_finally body cleanup : yields (try_finally body cleanup) = yields body.
Proof.
  induction body; simpl; rewrite ?yields_perform_all; simpl; congruence.
Qed.

Lemma ending_perform_all events gen : ending (perform_all events gen) = ending gen.
Proof. induction events; simpl; auto. Qed.

Lemma ending_try_finally body cleanup : ending (try_finally body cleanup) = ending body.
Proof.
  induction body; simpl; rewrite ?ending_perform_all; simpl; congruence.
Qed.

Lemma consume_perform_all n events gen :
  consume (S n) (perform_all events gen) =
  (map Effect events ++ (consume (S n) gen).1, (consume (S n) gen).2).
Proof.
  induction events as [|event events IH].
  - simpl perform_all. simpl app. by destruct (consume (S n) gen).
  - simpl perform_all. change (consume (S n) (Perform event (perform_all events gen)))
      with (let '(trace, outcome) := consume (S n) (perform_all events gen) in
            (Effect event :: trace, outcome)).
    rewrite IH. done.
Qed.

(** A consumer gets the first items of the generator, in their order. *)
Lemma consume_items n gen : items_of (consume n gen).1 = take n (yields gen).
Proof.
  revert n. induction gen as [| |event next IH|item on_close next IH]; intros [|n]; try done.
  - simpl. specialize (IH (S n)). destruct (consume (S n) next) as [trace outcome].
    simpl in *. done.
  - simpl. destruct n as [|n].
    + simpl. f_equal. unfold items_of. induction on_close; simpl; auto.
    + specialize (IH (S n)). destruct (consume (S n) next) as [trace outcome].
      simpl in *. by f_equal.
Qed.

(** A started generator inside [try ... finally] does what its body does and
    then runs the cleanup, however it ends: exhausted, failed or closed. *)
Lemma consume_try_finally n body cleanup :
  consume (S n) (try_finally body cleanup) =
  ((consume (S n) body).1 ++ map Effect cleanup, (consume (S n) body).2).
Proof.
  revert n. induction body as [| |event next IH|item on_close next IH]; intros n.
  - simpl try_finally. rewrite consume_perform_all. simpl. by rewrite app_nil_r.
  - simpl try_finally. rewrite consume_perform_all. simpl. by rewrite app_nil_r.
  - simpl. rewrite IH. by destruct (consume (S n) next).
  - simpl. destruct n as [|n].
    + simpl. by rewrite map_app.
    + rewrite IH. by destruct (consume (S n) next).
Qed.

End GeneratorProperties.

(** * Properties of the row loader *)

Lemma ceil_div_spec n k : 0 < k → n ≤ ceil_div n k * k < n + k.
Proof.
  intros Hk. unfold ceil_div.
  pose proof (Nat.div_mod_eq (n + k - 1) k) as Hdm.
  pose proof (Nat.mod_upper_bound (n + k - 1) k ltac:(lia)) as Hmod.
  split; nia.
Qed.

Lemma ceil_div_0 k : 0 < k → ceil_div 0 k = 0.
Proof. intros Hk. unfold ceil_div. apply Nat.div_small. lia. Qed.

Lemma ceil_div_step n k : 0 < k → 0 < n → ceil_div n k = S (ceil_div (n - k) k).
Proof.
  intros Hk Hn. unfold ceil_div.
  destruct (decide (n ≤ k)) as [Hle|Hgt].
  - replace (n - k) with 0 by lia. rewrite (Nat.div_small (0 + k - 1)) by lia.
    symmetry. apply (Nat.div_unique _ _ 1 (n - 1)); lia.
  - replace (n + k - 1) with ((n - k + k - 1) + 1 * k) by lia.
    rewrite Nat.div_add by lia. lia.
Qed.

Lemma string_app_assoc (a b c : string) : (a +:+ b) +:+ c = a +:+ (b +:+ c).
Proof.
  induction a as [|ch a IH]; [reflexivity|].
  change (String ch ((a +:+ b) +:+ c) = String ch (a +:+ (b +:+ c))). by rewrite IH.
Qed.

Section RowLoaderProperties.
Context {V : Type}.
Variable world : World.t V.

Lemma partitions_concat size (rows : list (Row.t V)) :
  0 < size → concat (partitions size rows) = rows.
Proof.
  intros Hsize. funelim (partitions size rows); simp partitions; try done; try lia.
  rewrite concat_cons, H by done. apply take_drop.
Qed.

Lemma partitions_length size (rows : list (Row.t V)) :
  0 < size → length (partitions size rows) = ceil_div (length rows) size.
Proof.
  intros Hsize. funelim (partitions size rows); simp partitions; try lia.
  - change (length (@nil (Row.t V))) with 0. by rewrite ceil_div_0.
  - rewrite length_cons, H by done. rewrite length_drop.
    symmetry. apply ceil_div_step; simpl; lia.
Qed.

(** Every batch but the last is full, and no batch is empty or overfull. *)
Lemma partitions_full size (rows : list (Row.t V)) i partition :
  0 < size →
  partitions size rows !! i = Some partition →
  0 < length partition ≤ size ∧
  (i + 1 < length (partitions size rows) → length partition = size).
Proof.
  intros Hsize. revert i.
  funelim (partitions size rows); simp partitions; intros i Hi; try done; try lia.
  rewrite lookup_cons in Hi. rewrite length_cons. destruct i as [|i].
  - injection Hi as <-. rewrite length_cons, length_take.
    split; [lia|]. intros Hmore.
    destruct (decide (S n ≤ S (length l))) as [|Hshort]; [lia|].
    rewrite drop_ge in Hmore by (rewrite length_cons; lia).
    simp partitions in Hmore. simpl in Hmore. lia.
  - destruct (H partition Hsize i Hi) as [Hlen Hfull]. split; [done|].
    intros Hmore. apply Hfull. lia.
Qed.

(** With an in-process backend the loop yields one item per partition, which
    holds the rows of the partition. *)
Lemma yield_partitions_rows self columns backend_kwargs parts (finish : Generator V) :
  in_process (TableLoader.backend self) →
  chunk_rows <$> yields (yield_partitions self columns backend_kwargs parts finish)
  = parts ++ (chunk_rows <$> yields finish).
Proof.
  intros Hbackend. induction parts as [|partition parts IH]; [done|].
  simpl yield_partitions.
  destruct Hbackend as [-> | [-> | ->]]; simpl;
    rewrite <- ?IH; f_equal; try done.
  induction partition as [|[mapping] partition IHp]; simpl; by f_equal.
Qed.

Lemma yield_partitions_no_control self columns backend_kwargs parts (finish : Generator V) :
  Forall (λ item, is_control_record item = false) (yields finish) →
  Forall (λ item, is_control_record item = false)
    (yields (yield_partitions self columns backend_kwargs parts finish)).
Proof.
  intros Hfinish. induction parts as [|partition parts IH]; [done|].
  simpl. repeat case_match; simpl; try constructor; done.
Qed.

Lemma ending_yield_partitions self columns backend_kwargs parts (finish : Generator V) :
  ending (yield_partitions self columns backend_kwargs parts finish) = ending finish.
Proof.
  induction parts as [|partition parts IH]; [done|].
  simpl. repeat case_match; simpl; done.
Qed.

(** C8. With an in-process backend and a chunk size [k > 0], a query whose
    result has [N] rows is yielded in [ceil (N / k)] chunks; every chunk but the
    last holds exactly [k] rows, and the chunks, one after the other in the
    order of their emission, hold the rows of the result. The generator then
    ends normally. *)
Theorem load_rows_chunking self query backend_kwargs result k :
  0 < k →
  TableLoader.chunk_size self = k →
  in_process (TableLoader.backend self) →
  World.connect world (TableLoader.engine self) = Ok () →
  World.execute world (TableLoader.engine self) query k = Ok result →
  ExecResult.failure result = None →
  let chunks := yields (_load_rows world self query backend_kwargs) in
  length chunks = ceil_div (length (ExecResult.rows result)) k ∧
  (∀ i chunk,
     chunks !! i = Some chunk → i + 1 < length chunks → length (chunk_rows chunk) = k) ∧
  concat (chunk_rows <$> chunks) = ExecResult.rows result ∧
  ending (_load_rows world self query backend_kwargs) = Exhausted.
Proof.
  intros Hk Hsize Hbackend Hconnect Hexecute Hfailure chunks.
  assert (Hrows : chunk_rows <$> chunks = partitions k (ExecResult.rows result)).
  { subst chunks. unfold _load_rows. rewrite Hconnect. simpl yields.
    rewrite yields_try_finally. simpl yields. rewrite Hsize, Hexecute, Hfailure.
    rewrite yield_partitions_rows by done. simpl. by rewrite app_nil_r. }
  assert (Hlen : length chunks = length (partitions k (ExecResult.rows result))).
  { by rewrite <- Hrows, length_fmap. }
  split; [by rewrite Hlen, partitions_length|]. split; [|split].
  - intros i chunk Hi Hmore.
    assert (Hpart : partitions k (ExecResult.rows result) !! i = Some (chunk_rows chunk)).
    { by rewrite <- Hrows, list_lookup_fmap, Hi. }
    apply (partitions_full _ _ _ _ Hk Hpart). by rewrite <- Hlen.
  - rewrite Hrows. by apply partitions_concat.
  - unfold _load_rows. rewrite Hconnect. simpl ending.
    rewrite ending_try_finally. simpl ending. rewrite Hsize, Hexecute, Hfailure.
    by rewrite ending_yield_partitions.
Qed.

(** C9. On the ConnectorX path, when the query cannot be compiled to literal
    SQL the loader raises [NotImplementedError] with a message that ends in
    the message of the compilation error; nothing is yielded and no query is
    handed to ConnectorX. *)
Theorem load_rows_connectorx_not_compiled self query backend_kwargs ex :
  World.connectorx_importable world = true →
  World.compile_literal world (TableLoader.engine self) query = inl ex →
  _load_rows_connectorx world self query backend_kwargs =
    Raise (NotImplementedError
             ("Query for table " +:+ Table.name (TableLoader.table self)
              +:+ " could not be compiled to string to execute it"
              +:+ " on ConnectorX. If you are on SQLAlchemy 1.4.x the causing exception is due to"
              +:+ " literals that cannot be rendered, upgrade to 2.x: " +:+ ex)) ∧
  effects (_load_rows_connectorx world self query backend_kwargs) = [] ∧
  yields (_load_rows_connectorx world self query backend_kwargs) = [] ∧
  (TableLoader.backend self = "connectorx" →
   make_query self = Ok query →
   ∀ kwargs, ∃ msg,
     consume 1 (load_rows world self kwargs) = ([], Failed (NotImplementedError (msg +:+ ex)))).
Proof.
  intros Himport Hcompile.
  assert (Hraise : ∀ kwargs, _load_rows_connectorx world self query kwargs =
            Raise (NotImplementedError
                     (not_compiled_msg (Table.name (TableLoader.table self)) ex))).
  { intros kwargs. unfold _load_rows_connectorx. by rewrite Himport, Hcompile. }
  rewrite Hraise. split; [done|]. split; [done|]. split; [done|].
  intros Hbackend Hquery kwargs. unfold load_rows. rewrite Hquery, Hbackend. simpl.
  rewrite Hraise. unfold not_compiled_msg.
  exists ("Query for table " +:+ Table.name (TableLoader.table self)
          +:+ " could not be compiled to string to execute it"
          +:+ " on ConnectorX. If you are on SQLAlchemy 1.4.x the causing exception is due to"
          +:+ " literals that cannot be rendered, upgrade to 2.x: ").
  by rewrite !string_app_assoc.
Qed.

End RowLoaderProperties.

(** * Properties of the extraction *)

Section ExtractionProperties.
Context {V : Type}.
Variable world : World.t V.

Lemma effects_perform_all events (gen : Generator V) :
  effects (perform_all events gen) = events ++ effects gen.
Proof. induction events; simpl; congruence. Qed.

Lemma c_getitem_missing table key :
  (∀ column, column ∈ Table.c table → Column.name column ≠ key) →
  Table.c_getitem table key = Raised (KeyError key).
Proof.
  intros Hmissing. unfold Table.c_getitem.
  destruct (find _ _) as [column|] eqn:Hfind; [|done].
  apply find_some in Hfind as [Hin Heq]. apply String.eqb_eq in Heq.
  apply list_elem_of_In in Hin. by destruct (Hmissing column Hin).
Qed.

(** C5. When no column of the table the loader is built on has the name of
    the configured cursor column, building the loader raises [KeyError] with a
    message that names the column and the table; [table_rows] ends with this
    error, and before it opens no connection, executes no query and hands
    none to ConnectorX. *)
Theorem init_missing_cursor_column engine table chunk_size backend inc defer_table_reflect
    table_adapter_callback reflection_level backend_kwargs type_adapter_callback
    included_columns query_adapter_callback :
  let loaded :=
    loaded_table world engine table defer_table_reflect table_adapter_callback included_columns in
  let error :=
    KeyError ("Cursor column '" +:+ Incremental.cursor_path inc
              +:+ "' does not exist in table '" +:+ Table.name loaded +:+ "'") in
  let rows :=
    table_rows world engine table chunk_size backend (Some inc) defer_table_reflect
      table_adapter_callback reflection_level backend_kwargs type_adapter_callback
      included_columns query_adapter_callback in
  (∀ column, column ∈ Table.c loaded → Column.name column ≠ Incremental.cursor_path inc) →
  (∀ columns,
     __init__ engine backend loaded columns chunk_size (Some inc) query_adapter_callback
     = Raised error) ∧
  ending rows = Failed error ∧
  Forall (λ event, is_query_event event = false) (effects rows).
Proof.
  intros loaded error rows Hmissing.
  assert (Hinit : ∀ columns inc',
            Incremental.cursor_path inc' = Incremental.cursor_path inc →
            __init__ engine backend loaded columns chunk_size (Some inc') query_adapter_callback
            = Raised error).
  { intros columns inc' Hpath. unfold __init__.
    rewrite Hpath, (c_getitem_missing _ _ Hmissing). done. }
  split; [intros columns; by apply Hinit|].
  subst rows. unfold table_rows, load_and_dispose.
  destruct defer_table_reflect.
  - fold (loaded_table world engine table true table_adapter_callback included_columns).
    fold loaded. simpl ending. rewrite ending_perform_all. simpl ending.
    simpl effects. rewrite effects_perform_all. simpl effects.
    destruct (Incremental.primary_key inc) as [key|] eqn:Hkey.
    + rewrite Hinit by done. split; [done|]. by repeat constructor.
    + destruct (World.get_primary_key world loaded) as [key|] eqn:Hget.
      * rewrite Hinit by done. split; [done|]. by repeat constructor.
      * rewrite Hinit by done. split; [done|]. by repeat constructor.
  - change (loaded_table world engine table false table_adapter_callback included_columns)
      with table in loaded. subst loaded.
    rewrite Hinit by done. split; [done|]. constructor.
Qed.

Lemma load_rows_no_control (loader : TableLoader.t V) backend_kwargs :
  Forall (λ item, is_control_record item = false) (yields (load_rows world loader backend_kwargs)).
Proof.
  unfold load_rows. destruct (make_query loader) as [query|e]; [|constructor].
  case_match.
  - unfold _load_rows_connectorx. repeat case_match; simpl; repeat constructor.
  - unfold _load_rows. case_match; [|constructor]. simpl yields.
    rewrite yields_try_finally. simpl yields.
    case_match; [|constructor].
    apply yield_partitions_no_control. case_match; constructor.
Qed.

Lemma load_and_dispose_no_control engine table chunk_size backend incremental columns
    backend_kwargs query_adapter_callback :
  Forall (λ item, is_control_record item = false)
    (yields (load_and_dispose world engine table chunk_size backend incremental columns
               backend_kwargs query_adapter_callback)).
Proof.
  unfold load_and_dispose. case_match; [|constructor].
  rewrite yields_try_finally. apply load_rows_no_control.
Qed.

(** C7. With deferred reflection, the first item [table_rows] yields is one
    control record with no rows, the primary key and the column mapping
    derived from the reflected table, and no item after it is a control
    record; without deferred reflection no item is a control record. Whatever
    the consumer asks for, it receives the items in this order. *)
Theorem table_rows_control_record engine table chunk_size backend incremental
    table_adapter_callback reflection_level backend_kwargs type_adapter_callback
    included_columns query_adapter_callback :
  let rows defer_table_reflect :=
    table_rows world engine table chunk_size backend incremental defer_table_reflect
      table_adapter_callback reflection_level backend_kwargs type_adapter_callback
      included_columns query_adapter_callback in
  let reflected := loaded_table world engine table true table_adapter_callback included_columns in
  (∃ chunks,
     yields (rows true) =
       WithHints []
         {| Hints.primary_key := World.get_primary_key world reflected;
            Hints.columns :=
              World.table_to_columns world reflected reflection_level type_adapter_callback |}
       :: chunks ∧
     Forall (λ item, is_control_record item = false) chunks) ∧
  Forall (λ item, is_control_record item = false) (yields (rows false)) ∧
  ∀ defer_table_reflect n,
    items_of (consume n (rows defer_table_reflect)).1 = take n (yields (rows defer_table_reflect)).
Proof.
  intros rows reflected. split; [|split].
  - subst rows. unfold table_rows. simpl yields. rewrite yields_perform_all. simpl yields.
    eexists. split; [reflexivity|]. apply load_and_dispose_no_control.
  - subst rows. unfold table_rows. apply load_and_dispose_no_control.
  - intros defer_table_reflect n. apply consume_items.
Qed.

(** [engine_from_credentials] hands an engine back as it is. *)
Lemma engine_from_credentials_engine engine may_dispose_after_use backend_kwargs :
  engine_from_credentials world (CredentialsEngine engine) may_dispose_after_use backend_kwargs
  = engine.
Proof. done. Qed.

(** An engine made by [engine_from_credentials] carries the given flag. *)
Lemma engine_from_credentials_flag credentials may_dispose_after_use backend_kwargs :
  (∀ engine, credentials ≠ CredentialsEngine engine) →
  Engine.getattr_may_dispose_after_use
    (engine_from_credentials world credentials may_dispose_after_use backend_kwargs)
  = may_dispose_after_use.
Proof. intros Hnew. destruct credentials as [engine| |]; [by destruct (Hnew engine)|done..]. Qed.

(** Once the loader is built and its generator started, the engine is
    disposed after the rows are loaded, however loading ends, exactly when it
    may be disposed. *)
Lemma load_and_dispose_trace engine table chunk_size backend incremental columns
    backend_kwargs query_adapter_callback loader n :
  __init__ engine backend table columns chunk_size incremental query_adapter_callback
    = Ok loader →
  consume (S n)
    (load_and_dispose world engine table chunk_size backend incremental columns
       backend_kwargs query_adapter_callback)
  = ((consume (S n) (load_rows world loader backend_kwargs)).1
       ++ (if Engine.getattr_may_dispose_after_use engine
           then [Effect (Disposed engine)] else []),
     (consume (S n) (load_rows world loader backend_kwargs)).2).
Proof.
  intros Hinit. unfold load_and_dispose. rewrite Hinit, consume_try_finally.
  by destruct (Engine.getattr_may_dispose_after_use engine).
Qed.

End ExtractionProperties.

(** * The worked extraction, step by step *)

Lemma make_query_bounds_witness :
  ∃ loader query,
    __init__ events_engine "sqlalchemy" events [] 2 (Some events_window) None = Ok loader ∧
    _make_query loader = Ok query ∧
    Select.whereclause query =
      [And_ (And_ (BinaryExpression operator.ge ts_column 20240101%Z)
                  (BinaryExpression operator.lt ts_column 20240103%Z))
            (IsNotNull ts_column)].
Proof.
  destruct (make_query_bounds events_engine "sqlalchemy" events [] 2 events_window None
              ts_column 20240101%Z)
    as (loader & query & Hinit & Hquery & Hmax & _);
    [reflexivity | reflexivity | left; reflexivity |].
  exists loader, query. split; [exact Hinit|]. split; [exact Hquery|].
  exact (proj1 (Hmax eq_refl)).
Defined.

Lemma make_query_missing_values_witness :
  ∃ loader query,
    __init__ events_engine "sqlalchemy" events [] 2 (Some events_first_run) None = Ok loader ∧
    _make_query loader = Ok query ∧
    Select.whereclause query = [And_ PyTrue (IsNotNull ts_column)].
Proof.
  destruct (make_query_missing_values events_engine "sqlalchemy" events [] 2 events_first_run
              None ts_column)
    as (loader & query & lower_bound & Hinit & Hquery & Hlower & _ & _ & Hexclude);
    [reflexivity | right; reflexivity |].
  exists loader, query. split; [exact Hinit|]. split; [exact Hquery|].
  rewrite (Hexclude eq_refl), Hlower. reflexivity.
Defined.

Lemma make_query_order_by_witness :
  ∃ loader query,
    __init__ events_engine "sqlalchemy" events [] 2 (Some events_cursor) None = Ok loader ∧
    _make_query loader = Ok query ∧
    Select.order_by_clauses query = [Asc ts_column].
Proof.
  destruct (make_query_order_by events_engine "sqlalchemy" events [] 2 events_cursor
              None ts_column)
    as (loader & query & Hinit & Hquery & Hasc & _);
    [reflexivity | left; reflexivity |].
  exists loader, query. split; [exact Hinit|]. split; [exact Hquery|].
  apply Hasc. left. split; reflexivity.
Defined.

Lemma make_query_custom_witness :
  ∃ loader,
    __init__ events_engine "sqlalchemy" events [] 2 (Some events_custom) None = Ok loader ∧
    make_query loader = Ok (Select.select events).
Proof.
  destruct (make_query_custom events_engine "sqlalchemy" events [] 2 events_custom
              None ts_column (λ values, last values))
    as (loader & Hinit & _ & _ & _ & Hquery & _);
    [reflexivity | reflexivity |].
  exists loader. split; [exact Hinit|]. exact (Hquery eq_refl).
Defined.

Lemma make_query_no_last_value_witness :
  ∃ loader loader' query,
    __init__ events_engine "sqlalchemy" events [] 2 (Some events_first_run) None = Ok loader ∧
    __init__ events_engine "sqlalchemy" events [] 2
      (Some (with_end_value events_first_run None)) None = Ok loader' ∧
    _make_query loader = Ok query ∧
    _make_query loader' = Ok query ∧
    Select.whereclause query = [And_ PyTrue (IsNotNull ts_column)].
Proof.
  destruct (make_query_no_last_value events_engine "sqlalchemy" events [] 2 events_first_run
              None ts_column)
    as (loader & query & Hinit & Hquery & Hwhere & _ & Hend);
    [reflexivity | reflexivity | right; reflexivity |].
  destruct (Hend None) as (loader' & Hinit' & Hquery').
  exists loader, loader', query. repeat split; assumption.
Defined.

Lemma init_missing_cursor_column_witness :
  ending
    (table_rows events_world events_engine events 2 "sqlalchemy" (Some events_bad_cursor)
       false None "full" None None None None)
  = Failed (KeyError "Cursor column 'updated_at' does not exist in table 'events'").
Proof.
  refine (proj1 (proj2 (init_missing_cursor_column events_world events_engine events 2
                          "sqlalchemy" events_bad_cursor false None "full" None None None None
                          _))).
  intros column Hin. simpl in Hin.
  repeat (apply elem_of_cons in Hin as [->|Hin]; [discriminate|]).
  by apply elem_of_nil in Hin.
Defined.

Lemma load_rows_chunking_witness :
  length (yields (_load_rows events_world events_loader events_query ∅)) = ceil_div 3 2 ∧
  concat (chunk_rows <$> yields (_load_rows events_world events_loader events_query ∅))
  = [events_row 2 20240101 20; events_row 3 20240102 30; events_row 4 20240103 40].
Proof.
  destruct (load_rows_chunking events_world events_loader events_query ∅
              {| ExecResult.keys := ["id"; "ts"; "val"];
                 ExecResult.rows :=
                   [events_row 2 20240101 20; events_row 3 20240102 30;
                    events_row 4 20240103 40];
                 ExecResult.failure := None |} 2)
    as (Hlength & _ & Hconcat & _);
    [lia | reflexivity | left; reflexivity | reflexivity | reflexivity | reflexivity |].
  split; [exact Hlength | exact Hconcat].
Defined.

Lemma load_rows_connectorx_not_compiled_witness :
  yields (_load_rows_connectorx events_world events_loader events_query ∅) = [] ∧
  effects (_load_rows_connectorx events_world events_loader events_query ∅) = [].
Proof.
  destruct (load_rows_connectorx_not_compiled events_world events_loader events_query ∅
              "literal value not rendered")
    as (_ & Heffects & Hyields & _); [reflexivity | reflexivity |].
  split; [exact Hyields | exact Heffects].
Defined.

(** C6, on the code. An engine created for this extraction alone, hence
    marked for disposal, is left undisposed when the iteration of [table_rows]
    ends before the rows are loaded: when the consumer closes the generator
    after the control record of a deferred reflection, and when the loader
    cannot be built because the table lacks the cursor column. In both runs
    no [Disposed] effect occurs. Run to its end, the same extraction disposes
    the engine. *)
Theorem table_rows_owned_engine_not_disposed :
  Engine.getattr_may_dispose_after_use events_engine = true ∧
  consume 1
    (table_rows events_world events_engine events 2 "sqlalchemy" (Some events_cursor)
       true None "full" None None None None)
  = ([Effect (Reflected events_engine "events");
      Effect (PrimaryKeySet ["id"]);
      Item (WithHints []
              {| Hints.primary_key := Some ["id"];
                 Hints.columns := [("id", "INT"); ("ts", "TIMESTAMP"); ("val", "INT")] |})],
     Closed) ∧
  consume 1
    (table_rows events_world events_engine events 2 "sqlalchemy" (Some events_bad_cursor)
       false None "full" None None None None)
  = ([], Failed (KeyError "Cursor column 'updated_at' does not exist in table 'events'")) ∧
  last (consume 4
          (table_rows events_world events_engine events 2 "sqlalchemy" (Some events_cursor)
             true None "full" None None None None)).1
  = Some (Effect (Disposed events_engine)).
Proof. repeat split; reflexivity. Qed.

(** The end-to-end example of the specification: of the four rows of
    [events], the three with [ts >= 2024-01-01] are delivered, in two chunks
    of 2 rows and 1 row, and the engine is disposed in the end. *)
Example table_rows_events :
  consume 3
    (table_rows events_world events_engine events 2 "sqlalchemy" (Some events_cursor)
       false None "full" None None None None)
  = ([Effect (Connected events_engine);
      Effect (Executed events_query 2);
      Item (RowDicts [Row._mapping (events_row 2 20240101 20);
                      Row._mapping (events_row 3 20240102 30)]);
      Item (RowDicts [Row._mapping (events_row 4 20240103 40)]);
      Effect (ConnectionClosed events_engine);
      Effect (Disposed events_engine)],
     Exhausted).
Proof. reflexivity. Qed.

(** * Further properties of the query builder *)

(** Membership in a list that is written out. *)
Ltac list_cases H :=
  repeat (let Heq := fresh "Heq" in
          apply elem_of_cons in H as [Heq|H];
          [first [discriminate Heq | subst; auto] | ]);
  try (by apply elem_of_nil in H).

Section MoreQueryProperties.
Context {V : Type}.
Implicit Types (inc : Incremental.t V) (column : Column.t) (query : Select.t V).

Lemma c_getitem_found table key column :
  Table.c_getitem table key = Ok column →
  column ∈ Table.c table ∧ Column.name column = key.
Proof.
  unfold Table.c_getitem. destruct (find _ _) as [found|] eqn:Hfind; [|done].
  intros [= <-]. apply find_some in Hfind as [Hin Heq].
  split; [by apply list_elem_of_In | by apply String.eqb_eq].
Qed.

(** What [__init__] keeps of its arguments. *)
Lemma init_fields engine backend table columns chunk_size incremental callback
    (loader : TableLoader.t V) :
  __init__ engine backend table columns chunk_size incremental callback = Ok loader →
  TableLoader.engine loader = engine ∧
  TableLoader.backend loader = backend ∧
  TableLoader.table loader = table ∧
  TableLoader.columns loader = columns ∧
  TableLoader.chunk_size loader = chunk_size ∧
  TableLoader.query_adapter_callback loader = callback ∧
  TableLoader.incremental loader = incremental.
Proof.
  unfold __init__. destruct incremental as [inc|].
  - destruct (Table.c_getitem _ _) as [column|e].
    + by intros [= <-].
    + destruct e; simpl; intros [=].
  - by intros [= <-].
Qed.

(** A loader built by [__init__] builds its query without an error. *)
Lemma init_make_query engine backend table columns chunk_size incremental callback
    (loader : TableLoader.t V) :
  __init__ engine backend table columns chunk_size incremental callback = Ok loader →
  ∃ query,
    _make_query loader = Ok query ∧
    Select.froms query = table ∧
    (incremental = None → query = Select.select table).
Proof.
  intros Hinit. destruct incremental as [inc|].
  - destruct (init_with_incremental _ _ _ _ _ _ _ _ Hinit)
      as (column & Hcol & Ht & Hi & Hc & Hl & He & Hr & Hm).
    destruct (Incremental.last_value_func inc) as [| |f] eqn:Hf.
    + destruct (make_query_max_min loader table inc column operator.ge operator.lt
                  Ht Hi Hc Hl He Hr Hm) as (query & Hq & Hfrom & _); [by left|].
      exists query. done.
    + destruct (make_query_max_min loader table inc column operator.le operator.gt
                  Ht Hi Hc Hl He Hr Hm) as (query & Hq & Hfrom & _); [by right|].
      exists query. done.
    + exists (Select.select table). unfold _make_query. rewrite Ht, Hi, Hf. done.
  - exists (Select.select table). unfold __init__ in Hinit. injection Hinit as <-. done.
Qed.

(** X1. A loader that [__init__] has built always gets its query: neither
    [_make_query] nor [make_query] raises. The query selects from the table of
    the loader; it is the bare selection when there is no cursor state; and
    [make_query] hands it to the query adapter, when one is given, and returns
    what the adapter returns. *)
Theorem make_query_built engine backend table columns chunk_size incremental callback
    (loader : TableLoader.t V) :
  __init__ engine backend table columns chunk_size incremental callback = Ok loader →
  ∃ query,
    _make_query loader = Ok query ∧
    Select.froms query = table ∧
    (incremental = None → query = Select.select table) ∧
    make_query loader =
      Ok match callback with
         | Some adapter => adapter query table
         | None => query
         end.
Proof.
  intros Hinit.
  destruct (init_make_query _ _ _ _ _ _ _ _ Hinit) as (query & Hq & Hfrom & Hbare).
  destruct (init_fields _ _ _ _ _ _ _ _ Hinit) as (_ & _ & Ht & _ & _ & Hcb & _).
  exists query. split; [done|]. split; [done|]. split; [done|].
  unfold make_query. rewrite Hcb, Ht. destruct callback; [by rewrite Hq | done].
Qed.

(** X2. The query of a built loader has at most one WHERE criterion and at
    most one ORDER BY clause. The only column they mention is the cursor
    column, a column of the table with the configured name, and the only
    values they compare it with are the last value and the end value. *)
Theorem make_query_mentions_cursor_only engine backend table columns chunk_size incremental
    callback (loader : TableLoader.t V) query :
  __init__ engine backend table columns chunk_size incremental callback = Ok loader →
  _make_query loader = Ok query →
  length (Select.whereclause query) ≤ 1 ∧
  length (Select.order_by_clauses query) ≤ 1 ∧
  (∀ column, column ∈ query_columns query →
     ∃ inc, incremental = Some inc ∧
            column ∈ Table.c table ∧
            Column.name column = Incremental.cursor_path inc) ∧
  (∀ v, v ∈ concat (clause_values <$> Select.whereclause query) →
     ∃ inc, incremental = Some inc ∧
            (Incremental.last_value inc = Some v ∨ Incremental.end_value inc = Some v)).
Proof.
  intros Hinit Hquery.
  assert (Hbare : query = Select.select table →
            length (Select.whereclause query) ≤ 1 ∧
            length (Select.order_by_clauses query) ≤ 1 ∧
            (∀ column, column ∈ query_columns query →
               ∃ inc, incremental = Some inc ∧ column ∈ Table.c table ∧
                      Column.name column = Incremental.cursor_path inc) ∧
            (∀ v, v ∈ concat (clause_values <$> Select.whereclause query) →
               ∃ inc, incremental = Some inc ∧
                      (Incremental.last_value inc = Some v ∨ Incremental.end_value inc = Some v))).
  { intros ->. unfold query_columns. simpl. split; [lia|]. split; [lia|].
    split; intros ? Hin; by apply elem_of_nil in Hin. }
  destruct incremental as [inc|]; cycle 1.
  { destruct (init_make_query _ _ _ _ _ _ _ _ Hinit) as (query' & Hq & _ & Hsel).
    apply Hbare. rewrite Hquery in Hq. injection Hq as <-. by apply Hsel. }
  destruct (init_with_incremental _ _ _ _ _ _ _ _ Hinit)
    as (cursor & Hcol & Ht & Hi & Hc & Hl & He & Hr & Hm).
  apply c_getitem_found in Hcol as [Hin Hname].
  assert (Hshape : ∀ op op_end,
    (Incremental.last_value_func inc = builtin_max ∧ op = operator.ge ∧ op_end = operator.lt) ∨
    (Incremental.last_value_func inc = builtin_min ∧ op = operator.le ∧ op_end = operator.gt) →
    length (Select.whereclause query) ≤ 1 ∧
    length (Select.order_by_clauses query) ≤ 1 ∧
    (∀ column, column ∈ query_columns query → column = cursor) ∧
    (∀ v, v ∈ concat (clause_values <$> Select.whereclause query) →
       Incremental.last_value inc = Some v ∨ Incremental.end_value inc = Some v)).
  { intros op op_end Hops.
    destruct (make_query_max_min loader table inc cursor op op_end Ht Hi Hc Hl He Hr Hm Hops)
      as (query' & Hq & _ & Hw & Ho).
    rewrite Hquery in Hq. injection Hq as <-.
    unfold query_columns. rewrite Hw, Ho. clear Hw Ho.
    unfold criteria, exclude_appended, include_augmented, with_end_bound.
    generalize (bool_decide (Incremental.on_cursor_value_missing inc = "include")),
               (bool_decide (Incremental.on_cursor_value_missing inc = "exclude")).
    intros include exclude.
    assert (Horder : length (match Incremental.row_order inc with
                      | Some order =>
                          if bool_decide (order = "asc") then
                            [if is_max (Incremental.last_value_func inc)
                             then Asc cursor else Desc cursor]
                          else if bool_decide (order = "desc") then
                            [if is_max (Incremental.last_value_func inc)
                             then Desc cursor else Asc cursor]
                          else []
                      | None => []
                      end) ≤ 1
              ∧ ∀ column, column ∈ order_column <$>
                     match Incremental.row_order inc with
                      | Some order =>
                          if bool_decide (order = "asc") then
                            [if is_max (Incremental.last_value_func inc)
                             then Asc cursor else Desc cursor]
                          else if bool_decide (order = "desc") then
                            [if is_max (Incremental.last_value_func inc)
                             then Desc cursor else Asc cursor]
                          else []
                      | None => []
                      end → column = cursor).
    { destruct (Incremental.row_order inc) as [order|];
        [|split; [simpl; lia | intros column Hx; simpl in Hx; list_cases Hx]].
      destruct (bool_decide (order = "asc")), (bool_decide (order = "desc")),
        (is_max (Incremental.last_value_func inc)); simpl; split;
        (lia || (intros column Hx; simpl in Hx; list_cases Hx)). }
    destruct Horder as [Hlen Hcols].
    split; [|split; [done|]].
    - destruct (Incremental.last_value inc), (Incremental.end_value inc), include, exclude;
        simpl; lia.
    - split.
      + intros column [Hwhere|Horder]%elem_of_app; [|by apply Hcols].
        destruct (Incremental.last_value inc), (Incremental.end_value inc), include, exclude;
          simpl in Hwhere; list_cases Hwhere.
      + intros v Hv.
        destruct (Incremental.last_value inc), (Incremental.end_value inc), include, exclude;
          simpl in Hv; list_cases Hv. }
  destruct (Incremental.last_value_func inc) as [| |f] eqn:Hf.
  - destruct (Hshape operator.ge operator.lt) as (Hw & Ho & Hcols & Hvals); [by left|].
    split; [done|]. split; [done|]. split.
    + intros column ->%Hcols. eauto.
    + intros v Hv%Hvals. eauto.
  - destruct (Hshape operator.le operator.gt) as (Hw & Ho & Hcols & Hvals); [by right|].
    split; [done|]. split; [done|]. split.
    + intros column ->%Hcols. eauto.
    + intros v Hv%Hvals. eauto.
  - assert (query = Select.select table) as Hsel.
    { unfold _make_query in Hquery. rewrite Ht, Hi, Hf in Hquery. by injection Hquery as <-. }
    destruct (Hbare Hsel) as (Hw & Ho & Hcols & Hvals).
    split; [done|]. split; [done|]. split; [|done].
    intros column Hcolumn. rewrite Hsel in Hcolumn. unfold query_columns in Hcolumn.
    simpl in Hcolumn. by apply elem_of_nil in Hcolumn.
Qed.

(** X3. Under [max] or [min] with the policy [exclude], no row with a NULL
    cursor is selected, whether or not a last value or an end value is set. *)
Theorem make_query_exclude_no_null engine backend table columns chunk_size inc callback column :
  Table.c_getitem table (Incremental.cursor_path inc) = Ok column →
  Incremental.last_value_func inc = builtin_max ∨
  Incremental.last_value_func inc = builtin_min →
  Incremental.on_cursor_value_missing inc = "exclude" →
  ∃ loader query,
    __init__ engine backend table columns chunk_size (Some inc) callback = Ok loader ∧
    _make_query loader = Ok query ∧
    ∀ (compare : operator.t → V → V → bool) row,
      selects compare query row = true → is_Some (Row.cell row (Column.name column)).
Proof.
  intros Hcol Hf Hpolicy.
  set (op := if is_max (Incremental.last_value_func inc) then operator.ge else operator.le).
  set (op_end := if is_max (Incremental.last_value_func inc) then operator.lt else operator.gt).
  destruct (make_query_found engine backend table columns chunk_size inc callback
              column op op_end Hcol) as (loader & query & Hinit & Hq & _ & Hw & _).
  { subst op op_end. destruct Hf as [->| ->]; simpl; auto. }
  exists loader, query. split; [done|]. split; [done|].
  intros compare row. rewrite (selects_criteria compare query _ row Hw).
  destruct (Incremental.last_value inc) as [v|]; intros Hsel.
  - apply (eval_bounded compare _ column op v op_end _ row) in Hsel.
    destruct (Row.cell row (Column.name column)); [eauto|].
    rewrite Hpolicy in Hsel. discriminate.
  - rewrite Hpolicy in Hsel. simpl in Hsel.
    destruct (Row.cell row (Column.name column)); [eauto|discriminate].
Qed.

(** X4. An end value can only narrow the selection: whatever the cursor
    state, a row selected by the query built with an end value is selected by
    the query built for the same state without it. *)
Theorem make_query_end_value_narrows engine backend table columns chunk_size inc callback column :
  Table.c_getitem table (Incremental.cursor_path inc) = Ok column →
  ∃ loader loader' query query',
    __init__ engine backend table columns chunk_size (Some inc) callback = Ok loader ∧
    __init__ engine backend table columns chunk_size
      (Some (with_end_value inc None)) callback = Ok loader' ∧
    _make_query loader = Ok query ∧
    _make_query loader' = Ok query' ∧
    Select.order_by_clauses query = Select.order_by_clauses query' ∧
    ∀ (compare : operator.t → V → V → bool) row,
      selects compare query row = true → selects compare query' row = true.
Proof.
  intros Hcol.
  destruct (Incremental.last_value_func inc) as [| |f] eqn:Hf.
  1,2: set (op := if is_max (Incremental.last_value_func inc) then operator.ge else operator.le);
       set (op_end := if is_max (Incremental.last_value_func inc)
                      then operator.lt else operator.gt);
       assert (Hops :
         (Incremental.last_value_func inc = builtin_max ∧ op = operator.ge ∧ op_end = operator.lt) ∨
         (Incremental.last_value_func inc = builtin_min ∧ op = operator.le ∧ op_end = operator.gt))
         by (subst op op_end; rewrite Hf; simpl; auto);
       destruct (make_query_found engine backend table columns chunk_size inc callback
                   column op op_end Hcol Hops) as (loader & query & Hinit & Hq & _ & Hw & Ho);
       destruct (make_query_found engine backend table columns chunk_size
                   (with_end_value inc None) callback column op op_end Hcol Hops)
         as (loader' & query' & Hinit' & Hq' & _ & Hw' & Ho');
       exists loader, loader', query, query';
       (split; [done|]); (split; [done|]); (split; [done|]); (split; [done|]);
       (split; [by rewrite Ho, Ho'|]);
       intros compare row;
       rewrite (selects_criteria compare query _ row Hw),
               (selects_criteria compare query' _ row Hw');
       simpl Incremental.last_value; simpl Incremental.on_cursor_value_missing;
       simpl Incremental.end_value;
       destruct (Incremental.last_value inc) as [v|]; [|done];
       intros Hsel;
       apply (eval_bounded compare _ column op v op_end _ row) in Hsel;
       apply (eval_bounded compare _ column op v op_end None row);
       destruct (Row.cell row (Column.name column)); [|done];
       destruct Hsel as [Hlow _]; split; [done|]; intros w [=].
  destruct (init_found engine backend table columns chunk_size inc callback column Hcol)
    as [loader Hinit].
  destruct (init_found engine backend table columns chunk_size (with_end_value inc None)
              callback column Hcol) as [loader' Hinit'].
  destruct (init_with_incremental _ _ _ _ _ _ _ _ Hinit) as (_ & _ & Ht & Hi & _).
  destruct (init_with_incremental _ _ _ _ _ _ _ _ Hinit') as (_ & _ & Ht' & Hi' & _).
  exists loader, loader', (Select.select table), (Select.select table).
  split; [done|]. split; [done|].
  split; [unfold _make_query; by rewrite Ht, Hi, Hf|].
  split; [unfold _make_query; rewrite Ht', Hi'; simpl; by rewrite Hf|]. done.
Qed.

End MoreQueryProperties.

(** * Further properties of generators and of the row loader *)

Section MoreGeneratorProperties.
Context {V : Type}.
Implicit Types (gen body : Generator V) (cleanup : list (Event V)).

(** A consumer observes only effects the generator can have. *)
Lemma consume_effects n gen event :
  Effect event ∈ (consume n gen).1 → event ∈ effects gen.
Proof.
  revert n. induction gen as [| |event' next IH|item on_close next IH]; intros [|n];
    simpl; try (by intros ?%elem_of_nil).
  - specialize (IH (S n)). destruct (consume (S n) next) as [trace outcome]. simpl in *.
    intros [[= ->]|Hin]%elem_of_cons; [left | right; auto].
  - destruct n as [|n]; simpl.
    + intros [[=]|Hin]%elem_of_cons. apply elem_of_app. left.
      apply list_elem_of_fmap in Hin as (event' & [= ->] & Hin). done.
    + specialize (IH (S n)). destruct (consume (S n) next) as [trace outcome]. simpl in *.
      intros [[=]|Hin]%elem_of_cons. apply elem_of_app. right. auto.
Qed.

Lemma effects_try_finally body cleanup event :
  event ∈ effects (try_finally body cleanup) ↔ event ∈ effects body ∨ event ∈ cleanup.
Proof.
  induction body as [| |event' next IH|item on_close next IH]; simpl.
  - rewrite effects_perform_all. simpl. rewrite app_nil_r.
    split; [auto | intros [?%elem_of_nil|?]; done].
  - rewrite effects_perform_all. simpl. rewrite app_nil_r.
    split; [auto | intros [?%elem_of_nil|?]; done].
  - rewrite !elem_of_cons, IH. tauto.
  - rewrite !elem_of_app, IH. tauto.
Qed.

(** A consumer that asks for more items than there are sees the generator end. *)
Lemma consume_to_the_end n gen :
  length (yields gen) < n → (consume n gen).2 = ending gen.
Proof.
  revert n. induction gen as [| |event next IH|item on_close next IH]; intros [|n] Hn;
    simpl in *; try lia; try done.
  - specialize (IH (S n) Hn). by destruct (consume (S n) next).
  - destruct n as [|n]; [lia|].
    specialize (IH (S n) ltac:(lia)). by destruct (consume (S n) next).
Qed.

Lemma consume_Perform n event gen :
  (consume (S n) (Perform event gen)).1 = Effect event :: (consume (S n) gen).1.
Proof. simpl. by destruct (consume (S n) gen). Qed.

Lemma consume_Yield n item on_close gen :
  (consume (S (S n)) (Yield item on_close gen)).1 = Item item :: (consume (S n) gen).1.
Proof. simpl. by destruct (consume (S n) gen). Qed.

Lemma consume_perform_all_trace n events gen :
  (consume (S n) (perform_all events gen)).1 = map Effect events ++ (consume (S n) gen).1.
Proof. by rewrite consume_perform_all. Qed.

End MoreGeneratorProperties.

Section MoreRowLoaderProperties.
Context {V : Type}.
Variable world : World.t V.
Implicit Types (self : TableLoader.t V) (query : Select.t V) (kwargs : gmap string PyVal).

(** What the loop of [_load_rows] is for each backend. *)
Lemma yield_partitions_items self columns kwargs parts (finish : Generator V) :
  yields (yield_partitions self columns kwargs parts finish) =
  (if String.eqb (TableLoader.backend self) "sqlalchemy" then
     (λ partition, RowDicts (Row._mapping <$> partition)) <$> parts
   else if String.eqb (TableLoader.backend self) "pandas" then
     (λ partition,
        DataFrame partition columns (kwargs ∪ {[ "dtype_backend" := PyStr "pyarrow" ]}))
     <$> parts
   else if String.eqb (TableLoader.backend self) "pyarrow" then
     (λ partition,
        ArrowTable partition (TableLoader.columns self)
          (default (PyStr "UTC") (kwargs !! "tz"))) <$> parts
   else [])
  ++ yields finish.
Proof.
  induction parts as [|partition parts IH]; [by repeat case_match|].
  simpl yield_partitions. repeat case_match; simpl; rewrite IH; done.
Qed.

Lemma effects_yield_partitions self columns kwargs parts (finish : Generator V) :
  effects (yield_partitions self columns kwargs parts finish) = effects finish.
Proof.
  induction parts as [|partition parts IH]; [done|].
  simpl. repeat case_match; simpl; done.
Qed.

(** The items of [_load_rows] once the query is executed. *)
Lemma load_rows_yields self query kwargs unit result :
  World.connect world (TableLoader.engine self) = Ok unit →
  World.execute world (TableLoader.engine self) query (TableLoader.chunk_size self) = Ok result →
  yields (_load_rows world self query kwargs) =
  yields (yield_partitions self (ExecResult.keys result) kwargs
            (partitions (TableLoader.chunk_size self) (ExecResult.rows result)) Return)
  ∧ ending (_load_rows world self query kwargs) =
    match ExecResult.failure result with
    | Some e => Failed e
    | None => Exhausted
    end.
Proof.
  intros Hconnect Hexecute. unfold _load_rows. rewrite Hconnect. simpl.
  rewrite yields_try_finally, ending_try_finally. simpl. rewrite Hexecute.
  rewrite ending_yield_partitions, !yield_partitions_items. split.
  - f_equal. by destruct (ExecResult.failure result).
  - by destruct (ExecResult.failure result).
Qed.

(** The run of [_load_rows] on an open connection: the connection is opened
    first and closed last. *)
Lemma load_rows_trace self query kwargs unit n :
  World.connect world (TableLoader.engine self) = Ok unit →
  ∃ body,
    (consume (S n) (_load_rows world self query kwargs)).1 =
      Effect (Connected (TableLoader.engine self)) :: body
      ++ [Effect (ConnectionClosed (TableLoader.engine self))] ∧
    ∀ event, Effect event ∈ body →
             event = Executed query (TableLoader.chunk_size self).
Proof.
  intros Hconnect. unfold _load_rows. rewrite Hconnect.
  match goal with
  | |- context [try_finally ?inner ?cleanup] => set (body := inner)
  end.
  exists (consume (S n) body).1. split.
  - change (consume (S n) (Perform ?event ?next))
      with (let '(trace, outcome) := consume (S n) next in (Effect event :: trace, outcome)).
    rewrite consume_try_finally. done.
  - intros event Hin%consume_effects. subst body. simpl in Hin.
    apply elem_of_cons in Hin as [->|Hin]; [done|].
    destruct (World.execute _ _ _ _) as [result|e]; simpl in Hin.
    + rewrite effects_yield_partitions in Hin.
      destruct (ExecResult.failure result); by apply elem_of_nil in Hin.
    + by apply elem_of_nil in Hin.
Qed.

(** X5. [_load_rows] holds its connection for the whole read and releases
    it exactly once: whatever the consumer asks for and however the read
    ends, the run starts by opening the connection, ends by closing it, and
    neither opens nor closes a connection in between. When the connection
    cannot be opened the error is raised at once and nothing is closed. *)
Theorem load_rows_connection_scope self query kwargs n :
  match World.connect world (TableLoader.engine self) with
  | Ok _ =>
      ∃ body,
        (consume (S n) (_load_rows world self query kwargs)).1 =
          Effect (Connected (TableLoader.engine self)) :: body
          ++ [Effect (ConnectionClosed (TableLoader.engine self))] ∧
        ∀ engine, (Effect (Connected engine) ∉ body) ∧ (Effect (ConnectionClosed engine) ∉ body)
  | Raised e => consume (S n) (_load_rows world self query kwargs) = ([], Failed e)
  end.
Proof.
  destruct (World.connect world (TableLoader.engine self)) as [unit|e] eqn:Hconnect.
  - destruct (load_rows_trace self query kwargs unit n Hconnect) as (body & Htrace & Hbody).
    exists body. split; [done|]. intros engine. split; intros Hin%Hbody; discriminate.
  - unfold _load_rows. by rewrite Hconnect.
Qed.

(** X6. When fetching fails after some rows, [_load_rows] with an in-process
    backend has yielded these rows in chunks, then raises the error of the
    driver unchanged; the consumer that runs into the error has seen the
    connection closed as the last effect. *)
Theorem load_rows_failure_propagates self query kwargs result e n :
  0 < TableLoader.chunk_size self →
  in_process (TableLoader.backend self) →
  World.connect world (TableLoader.engine self) = Ok () →
  World.execute world (TableLoader.engine self) query (TableLoader.chunk_size self) = Ok result →
  ExecResult.failure result = Some e →
  length (yields (_load_rows world self query kwargs)) ≤ n →
  concat (chunk_rows <$> yields (_load_rows world self query kwargs)) = ExecResult.rows result ∧
  (consume (S n) (_load_rows world self query kwargs)).2 = Failed e ∧
  last (consume (S n) (_load_rows world self query kwargs)).1
  = Some (Effect (ConnectionClosed (TableLoader.engine self))).
Proof.
  intros Hsize Hbackend Hconnect Hexecute Hfailure Hn.
  destruct (load_rows_yields self query kwargs () result Hconnect Hexecute) as [Hyields Hend].
  split; [|split].
  - rewrite Hyields, yield_partitions_rows by done. simpl. rewrite app_nil_r.
    by apply partitions_concat.
  - rewrite consume_to_the_end by lia. by rewrite Hend, Hfailure.
  - destruct (load_rows_trace self query kwargs () n Hconnect) as (body & -> & _).
    by rewrite app_comm_cons, last_snoc.
Qed.

(** X7. A backend name that is none of [sqlalchemy], [pandas] and [pyarrow]
    makes [_load_rows] execute the query and yield nothing: the rows of the
    result are dropped without an error. *)
Theorem load_rows_unknown_backend self query kwargs result n :
  ¬ in_process (TableLoader.backend self) →
  World.connect world (TableLoader.engine self) = Ok () →
  World.execute world (TableLoader.engine self) query (TableLoader.chunk_size self) = Ok result →
  ExecResult.failure result = None →
  consume (S n) (_load_rows world self query kwargs) =
    ([Effect (Connected (TableLoader.engine self));
      Effect (Executed query (TableLoader.chunk_size self));
      Effect (ConnectionClosed (TableLoader.engine self))],
     Exhausted).
Proof.
  intros Hbackend Hconnect Hexecute Hfailure.
  assert (Hskip : ∀ columns parts (finish : Generator V),
            yield_partitions self columns kwargs parts finish = finish).
  { intros columns parts finish. induction parts as [|partition parts IH]; [done|].
    simpl. unfold in_process in Hbackend.
    destruct (String.eqb_spec (TableLoader.backend self) "sqlalchemy"); [tauto|].
    destruct (String.eqb_spec (TableLoader.backend self) "pandas"); [tauto|].
    destruct (String.eqb_spec (TableLoader.backend self) "pyarrow"); [tauto|]. done. }
  unfold _load_rows. rewrite Hconnect, Hexecute, Hfailure, Hskip. done.
Qed.

(** X8. With an in-process backend and a chunk size [k > 0], no chunk is
    empty and none holds more than [k] rows, the last one included, also when
    fetching fails in the end. *)
Theorem load_rows_chunk_bounds self query kwargs result chunk :
  0 < TableLoader.chunk_size self →
  in_process (TableLoader.backend self) →
  World.connect world (TableLoader.engine self) = Ok () →
  World.execute world (TableLoader.engine self) query (TableLoader.chunk_size self) = Ok result →
  chunk ∈ yields (_load_rows world self query kwargs) →
  0 < length (chunk_rows chunk) ≤ TableLoader.chunk_size self.
Proof.
  intros Hsize Hbackend Hconnect Hexecute Hchunk.
  destruct (load_rows_yields self query kwargs () result Hconnect Hexecute) as [Hyields _].
  rewrite Hyields in Hchunk.
  assert (Hrows : chunk_rows chunk ∈
            partitions (TableLoader.chunk_size self) (ExecResult.rows result)).
  { apply (list_elem_of_fmap_2 chunk_rows) in Hchunk.
    rewrite yield_partitions_rows in Hchunk by done. simpl in Hchunk.
    by rewrite app_nil_r in Hchunk. }
  apply list_elem_of_lookup in Hrows as [i Hi].
  by destruct (partitions_full _ _ _ _ Hsize Hi).
Qed.

(** X9. With the backend [sqlalchemy], each partition of the result is
    yielded as the list of the mappings of its rows, in the order of the
    rows; the keyword arguments of the backend play no part. *)
Theorem load_rows_sqlalchemy self query kwargs result :
  TableLoader.backend self = "sqlalchemy" →
  World.connect world (TableLoader.engine self) = Ok () →
  World.execute world (TableLoader.engine self) query (TableLoader.chunk_size self) = Ok result →
  yields (_load_rows world self query kwargs) =
    (λ partition, RowDicts (Row._mapping <$> partition)) <$>
      partitions (TableLoader.chunk_size self) (ExecResult.rows result).
Proof.
  intros Hbackend Hconnect Hexecute.
  destruct (load_rows_yields self query kwargs () result Hconnect Hexecute) as [-> _].
  rewrite yield_partitions_items, Hbackend. simpl. by rewrite app_nil_r.
Qed.

(** X10. With the backend [pandas], each partition is wrapped with the column
    names of the result and with the keyword arguments of the caller, to
    which [dtype_backend = "pyarrow"] is added unless the caller gives a
    [dtype_backend] of its own. *)
Theorem load_rows_pandas self query kwargs result :
  TableLoader.backend self = "pandas" →
  World.connect world (TableLoader.engine self) = Ok () →
  World.execute world (TableLoader.engine self) query (TableLoader.chunk_size self) = Ok result →
  ∃ wrap_kwargs : gmap string PyVal,
    yields (_load_rows world self query kwargs) =
      (λ partition, DataFrame partition (ExecResult.keys result) wrap_kwargs) <$>
        partitions (TableLoader.chunk_size self) (ExecResult.rows result) ∧
    wrap_kwargs !! "dtype_backend" =
      Some (default (PyStr "pyarrow") (kwargs !! "dtype_backend")) ∧
    ∀ key, key ≠ "dtype_backend" → wrap_kwargs !! key = kwargs !! key.
Proof.
  intros Hbackend Hconnect Hexecute.
  destruct (load_rows_yields self query kwargs () result Hconnect Hexecute) as [-> _].
  rewrite yield_partitions_items, Hbackend. simpl. rewrite app_nil_r.
  eexists. split; [reflexivity|]. split.
  - rewrite lookup_union. destruct (kwargs !! "dtype_backend"); simpl.
    + by rewrite union_Some_l.
    + by rewrite lookup_singleton_eq.
  - intros key Hkey. rewrite lookup_union, lookup_singleton_ne by done.
    by destruct (kwargs !! key).
Qed.

(** X11. With the backend [pyarrow], each partition is converted with the
    columns of the loader, not those of the result, and with the time zone
    the caller gives under [tz], or [UTC]. *)
Theorem load_rows_pyarrow self query kwargs result :
  TableLoader.backend self = "pyarrow" →
  World.connect world (TableLoader.engine self) = Ok () →
  World.execute world (TableLoader.engine self) query (TableLoader.chunk_size self) = Ok result →
  yields (_load_rows world self query kwargs) =
    (λ partition,
       ArrowTable partition (TableLoader.columns self)
         match kwargs !! "tz" with
         | Some tz => tz
         | None => PyStr "UTC"
         end) <$>
      partitions (TableLoader.chunk_size self) (ExecResult.rows result).
Proof.
  intros Hbackend Hconnect Hexecute.
  destruct (load_rows_yields self query kwargs () result Hconnect Hexecute) as [-> _].
  rewrite yield_partitions_items, Hbackend. simpl. rewrite app_nil_r.
  by destruct (kwargs !! "tz").
Qed.

(** X12. With the backend [connectorx] and ConnectorX not installed,
    [load_rows] raises [MissingDependencyException] at once, whether or not
    the query could be compiled: nothing is compiled, read or yielded. *)
Theorem load_rows_connectorx_missing self query backend_kwargs n :
  TableLoader.backend self = "connectorx" →
  make_query self = Ok query →
  World.connectorx_importable world = false →
  consume (S n) (load_rows world self backend_kwargs) =
    ([], Failed (MissingDependencyException "Connector X table backend" ["connectorx"])).
Proof.
  intros Hbackend Hquery Himport. unfold load_rows. rewrite Hquery, Hbackend. simpl.
  unfold _load_rows_connectorx. by rewrite Himport.
Qed.

(** X13. On the ConnectorX path with a query that compiles to [query_str],
    the loader hands ConnectorX one read and yields its one result, without
    opening a connection of the engine. The connection string is the one the
    caller gives under [conn], or else the URL of the engine under its
    backend name; [conn] is not among the options passed on; [return_type]
    and [protocol] are [arrow2] and [binary] unless the caller sets them; and
    every other option is passed on as the caller gives it. *)
Theorem load_rows_connectorx_read self query kwargs query_str n :
  World.connectorx_importable world = true →
  World.compile_literal world (TableLoader.engine self) query = inr query_str →
  (∀ conn options, World.read_sql world conn query_str options = Ok ()) →
  ∃ conn options,
    consume (S (S n)) (_load_rows_connectorx world self query kwargs) =
      ([Effect (ReadSql conn query_str options);
        Item (ConnectorXResult conn query_str options)], Exhausted) ∧
    conn =
      match kwargs !! "conn" with
      | Some conn => conn
      | None =>
          PyStr (URL.get_backend_name (Engine.url (TableLoader.engine self))
                 +:+ "://" +:+ URL.location (Engine.url (TableLoader.engine self)))
      end ∧
    options !! "conn" = None ∧
    options !! "return_type" = Some (default (PyStr "arrow2") (kwargs !! "return_type")) ∧
    options !! "protocol" = Some (default (PyStr "binary") (kwargs !! "protocol")) ∧
    ∀ key, key ≠ "conn" → is_Some (kwargs !! key) → options !! key = kwargs !! key.
Proof.
  intros Himport Hcompile Hread. unfold _load_rows_connectorx.
  rewrite Himport, Hcompile. simpl negb. cbv iota. rewrite Hread.
  eexists _, _. split; [reflexivity|]. split; [|split; [|split; [|split]]].
  - rewrite lookup_union.
    rewrite lookup_insert_ne, lookup_singleton_ne by done.
    by destruct (kwargs !! "conn").
  - apply lookup_delete_eq.
  - rewrite lookup_delete_ne, lookup_union by done.
    destruct (kwargs !! "return_type"); simpl.
    + by rewrite union_Some_l.
    + by rewrite lookup_insert_eq.
  - rewrite lookup_delete_ne, lookup_union by done.
    destruct (kwargs !! "protocol"); simpl.
    + by rewrite union_Some_l.
    + by rewrite lookup_insert_ne, lookup_singleton_eq.
  - intros key Hkey [value Hvalue].
    rewrite lookup_delete_ne, lookup_union, Hvalue by done. by rewrite union_Some_l.
Qed.

End MoreRowLoaderProperties.

(** * Further properties of the extraction *)

Section MoreExtractionProperties.
Context {V : Type}.
Variable world : World.t V.

(** The effects of loading rows: on the connection of the engine, or the
    read of ConnectorX. *)
Lemma load_rows_effects (loader : TableLoader.t V) backend_kwargs event :
  event ∈ effects (load_rows world loader backend_kwargs) →
  match event with
  | Connected _ | Executed _ _ | ConnectionClosed _ | ReadSql _ _ _ => True
  | Reflected _ _ | PrimaryKeySet _ | Disposed _ => False
  end.
Proof.
  unfold load_rows. destruct (make_query loader) as [query|e]; [|by intros ?%elem_of_nil].
  case_match.
  - unfold _load_rows_connectorx. intros Hin.
    destruct (negb _); [by apply elem_of_nil in Hin|].
    destruct (World.compile_literal _ _ _); [by apply elem_of_nil in Hin|].
    destruct (World.read_sql _ _ _ _); cbn [effects app] in Hin; list_cases Hin.
  - unfold _load_rows. case_match; [|by intros ?%elem_of_nil]. cbn [effects].
    intros [->|Hin]%elem_of_cons; [done|].
    apply effects_try_finally in Hin as [Hin|Hin]; [|list_cases Hin].
    cbn [effects] in Hin. apply elem_of_cons in Hin as [->|Hin]; [done|].
    case_match; [|by apply elem_of_nil in Hin].
    rewrite effects_yield_partitions in Hin. case_match; by apply elem_of_nil in Hin.
Qed.

(** The effects of [table_rows]: those of the reflection, then those of
    loading, then the disposal of the engine. *)
Lemma table_rows_effects engine table chunk_size backend incremental defer_table_reflect
    table_adapter_callback reflection_level backend_kwargs type_adapter_callback
    included_columns query_adapter_callback event :
  event ∈ effects
    (table_rows world engine table chunk_size backend incremental defer_table_reflect
       table_adapter_callback reflection_level backend_kwargs type_adapter_callback
       included_columns query_adapter_callback) →
  match event with
  | Connected _ | Executed _ _ | ConnectionClosed _ | ReadSql _ _ _ => True
  | Reflected _ _ => defer_table_reflect = true
  | PrimaryKeySet key =>
      defer_table_reflect = true ∧
      ∃ inc, incremental = Some inc ∧
             Incremental.primary_key inc = None ∧
             World.get_primary_key world
               (loaded_table world engine table true table_adapter_callback included_columns)
             = Some key
  | Disposed engine' =>
      engine' = engine ∧ Engine.getattr_may_dispose_after_use engine = true
  end.
Proof.
  assert (Hload : ∀ table' incremental' columns,
            event ∈ effects
              (load_and_dispose world engine table' chunk_size backend incremental' columns
                 backend_kwargs query_adapter_callback) →
            match event with
            | Connected _ | Executed _ _ | ConnectionClosed _ | ReadSql _ _ _ => True
            | Reflected _ _ | PrimaryKeySet _ => False
            | Disposed engine' =>
                engine' = engine ∧ Engine.getattr_may_dispose_after_use engine = true
            end).
  { intros table' incremental' columns. unfold load_and_dispose.
    case_match; [|by intros ?%elem_of_nil].
    intros [Hin|Hin]%effects_try_finally.
    - apply load_rows_effects in Hin. by destruct event.
    - destruct (Engine.getattr_may_dispose_after_use engine); list_cases Hin. }
  unfold table_rows. destruct defer_table_reflect.
  - fold (loaded_table world engine table true table_adapter_callback included_columns).
    simpl. intros [->|Hin]%elem_of_cons; [done|].
    rewrite effects_perform_all in Hin. simpl in Hin.
    apply elem_of_app in Hin as [Hin|Hin].
    + destruct incremental as [inc|]; [|list_cases Hin].
      destruct (Incremental.primary_key inc) eqn:Hkey; [list_cases Hin|].
      destruct (World.get_primary_key world _) eqn:Hget; list_cases Hin.
      split; [done|]. eauto.
    + apply Hload in Hin. by destruct event.
  - intros Hin%Hload. by destruct event.
Qed.

(** X14. [table_rows] writes a primary key into the cursor state only with
    deferred reflection, only when the state has none and the reflected table
    has one, and then it is the key of the table; a key the caller has set is
    never replaced. *)
Theorem table_rows_primary_key engine table chunk_size backend incremental defer_table_reflect
    table_adapter_callback reflection_level backend_kwargs type_adapter_callback
    included_columns query_adapter_callback key :
  PrimaryKeySet key ∈ effects
    (table_rows world engine table chunk_size backend incremental defer_table_reflect
       table_adapter_callback reflection_level backend_kwargs type_adapter_callback
       included_columns query_adapter_callback)
  ↔ defer_table_reflect = true ∧
    ∃ inc, incremental = Some inc ∧
           Incremental.primary_key inc = None ∧
           World.get_primary_key world
             (loaded_table world engine table true table_adapter_callback included_columns)
           = Some key.
Proof.
  split; [apply table_rows_effects|].
  intros (-> & inc & -> & Hnone & Hkey). unfold table_rows. unfold loaded_table in Hkey.
  cbn [effects]. rewrite Hnone, Hkey, effects_perform_all.
  apply elem_of_cons. right. apply elem_of_app. left. apply elem_of_cons. by left.
Qed.

(** X15. An engine that does not carry the flag [may_dispose_after_use], or
    carries it false, is never disposed by [table_rows], whatever the
    consumer does and however the extraction ends. *)
Theorem table_rows_keeps_engine engine table chunk_size backend incremental defer_table_reflect
    table_adapter_callback reflection_level backend_kwargs type_adapter_callback
    included_columns query_adapter_callback n engine' :
  Engine.getattr_may_dispose_after_use engine = false →
  Effect (Disposed engine') ∉
    (consume n
       (table_rows world engine table chunk_size backend incremental defer_table_reflect
          table_adapter_callback reflection_level backend_kwargs type_adapter_callback
          included_columns query_adapter_callback)).1.
Proof.
  intros Hflag Hin%consume_effects%table_rows_effects. destruct Hin as [_ Hin]. congruence.
Qed.

(** Once the loader is built, a started [load_and_dispose] on an engine that
    may be disposed ends its run by disposing it, and disposes nothing before. *)
Lemma load_and_dispose_last engine table chunk_size backend incremental columns
    backend_kwargs query_adapter_callback (loader : TableLoader.t V) n :
  Engine.getattr_may_dispose_after_use engine = true →
  __init__ engine backend table columns chunk_size incremental query_adapter_callback
    = Ok loader →
  ∃ body,
    (consume (S n)
       (load_and_dispose world engine table chunk_size backend incremental columns
          backend_kwargs query_adapter_callback)).1
    = body ++ [Effect (Disposed engine)] ∧
    ∀ engine', Effect (Disposed engine') ∉ body.
Proof.
  intros Hflag Hinit.
  rewrite (load_and_dispose_trace world _ _ _ _ _ _ _ _ loader n Hinit), Hflag.
  eexists. split; [reflexivity|].
  intros engine' Hin%consume_effects%load_rows_effects. done.
Qed.

(** X16. When the engine carries the flag [may_dispose_after_use] and the
    table has the cursor column, so that the loader is built, a consumer that
    has started the loading of rows sees the engine disposed as the last
    effect of the run, and disposed only then: after the last chunk, after an
    error of the database, and when the consumer closes the generator early. *)
Theorem table_rows_disposes_engine engine table chunk_size backend incremental
    defer_table_reflect table_adapter_callback reflection_level backend_kwargs
    type_adapter_callback included_columns query_adapter_callback n :
  Engine.getattr_may_dispose_after_use engine = true →
  (∀ inc, incremental = Some inc →
     ∃ column,
       Table.c_getitem
         (loaded_table world engine table defer_table_reflect table_adapter_callback
            included_columns)
         (Incremental.cursor_path inc) = Ok column) →
  ∃ body,
    (consume (if defer_table_reflect then S (S n) else S n)
       (table_rows world engine table chunk_size backend incremental defer_table_reflect
          table_adapter_callback reflection_level backend_kwargs type_adapter_callback
          included_columns query_adapter_callback)).1
    = body ++ [Effect (Disposed engine)] ∧
    ∀ engine', Effect (Disposed engine') ∉ body.
Proof.
  intros Hflag Hcolumn.
  assert (Hinit : ∀ incremental' columns,
            (∀ inc', incremental' = Some inc' →
               ∃ inc, incremental = Some inc ∧
                      Incremental.cursor_path inc' = Incremental.cursor_path inc) →
            ∃ loader,
              __init__ engine backend
                (loaded_table world engine table defer_table_reflect table_adapter_callback
                   included_columns)
                columns chunk_size incremental' query_adapter_callback = Ok loader).
  { intros [inc'|] columns Hpath; [|by eexists].
    destruct (Hpath inc' eq_refl) as (inc & Hinc & Heq).
    destruct (Hcolumn inc Hinc) as [column Hfound]. rewrite <- Heq in Hfound.
    by apply (init_found _ _ _ _ _ inc' _ column). }
  unfold table_rows. destruct defer_table_reflect.
  - fold (loaded_table world engine table true table_adapter_callback included_columns).
    match goal with
    | |- context [load_and_dispose world engine ?t chunk_size backend ?i ?c _ _] =>
        destruct (Hinit i c) as [loader Hloader]
    end.
    { intros inc' Hinc'. destruct incremental as [inc|]; [|done].
      exists inc. split; [done|].
      destruct (Incremental.primary_key inc);
        [|destruct (World.get_primary_key world _)];
        injection Hinc' as <-; done. }
    destruct (load_and_dispose_last _ _ _ _ _ _ backend_kwargs _ loader n Hflag Hloader)
      as (body & Hbody & Hnone).
    rewrite consume_Perform, consume_perform_all_trace, consume_Yield, Hbody.
    match goal with
    | |- ∃ _, ?first :: ?events ++ ?item :: body ++ _ = _ ∧ _ =>
        exists (first :: events ++ item :: body)
    end.
    split; [by rewrite <- app_comm_cons, <- app_assoc, <- app_comm_cons|].
    intros engine' [Heq|Hin]%elem_of_cons; [discriminate|].
    apply elem_of_app in Hin as [Hin|Hin].
    + apply list_elem_of_fmap in Hin as (event & [= <-] & Hin).
      repeat case_match; list_cases Hin.
    + apply elem_of_cons in Hin as [Heq|Hin]; [discriminate|]. by apply (Hnone engine').
  - destruct (Hinit incremental
                (World.table_to_columns world table reflection_level type_adapter_callback))
      as [loader Hloader]; [eauto|].
    by apply (load_and_dispose_last _ _ _ _ _ _ backend_kwargs _ loader n Hflag).
Qed.

(** X20. With an in-process backend, the one query a built loader executes
    is the query it has built, passed through the query adapter when one is
    given: what the adapter returns is what reaches the database, with the
    chunk size of the loader as the size of the batches. *)
Theorem load_rows_executes_adapted_query engine backend table columns chunk_size incremental
    callback (loader : TableLoader.t V) backend_kwargs :
  __init__ engine backend table columns chunk_size incremental callback = Ok loader →
  backend ≠ "connectorx" →
  World.connect world engine = Ok () →
  ∃ query,
    _make_query loader = Ok query ∧
    ∀ executed yield_per,
      Executed executed yield_per ∈ effects (load_rows world loader backend_kwargs) ↔
      executed = match callback with
                 | Some adapter => adapter query table
                 | None => query
                 end ∧
      yield_per = chunk_size.
Proof.
  intros Hinit Hbackend Hconnect.
  destruct (init_make_query _ _ _ _ _ _ _ _ Hinit) as (query & Hquery & _ & _).
  destruct (init_fields _ _ _ _ _ _ _ _ Hinit) as (He & Hb & Ht & _ & Hk & Hcb & _).
  exists query. split; [done|]. intros executed yield_per.
  unfold load_rows, make_query. rewrite Hcb, Ht, Hquery, Hb.
  set (final := match callback with Some adapter => adapter query table | None => query end).
  assert (Hfinal : match callback with
                   | Some adapter => query ← Ok query; Ok (adapter query table)
                   | None => Ok query
                   end = Ok final) by (subst final; by destruct callback).
  rewrite Hfinal.
  destruct (String.eqb_spec backend "connectorx") as [|_]; [done|].
  unfold _load_rows. rewrite He, Hk, Hconnect. cbn [effects].
  rewrite elem_of_cons, effects_try_finally. cbn [effects]. rewrite elem_of_cons.
  assert (Hrest : Executed executed yield_per ∉
            effects match World.execute world engine final chunk_size with
                    | Ok result =>
                        yield_partitions loader (ExecResult.keys result)
                          (default ∅ backend_kwargs)
                          (partitions chunk_size (ExecResult.rows result))
                          match ExecResult.failure result with
                          | Some e => Raise e
                          | None => Return
                          end
                    | Raised e => Raise e
                    end).
  { destruct (World.execute _ _ _ _) as [result|e]; [|by intros ?%elem_of_nil].
    rewrite effects_yield_partitions.
    destruct (ExecResult.failure result); by intros ?%elem_of_nil. }
  split.
  - intros [Heq|[[Heq|Hin]|Hin]]; try discriminate Heq.
    + by injection Heq as -> ->.
    + by destruct Hrest.
    + list_cases Hin.
  - intros [-> ->]. right. left. by left.
Qed.

End MoreExtractionProperties.

(** * Properties of [unwrap_json_connector_x] *)

Section UnwrapProperties.
Implicit Types (table : pa.Table) (field : string) (cells : list (option string)).

Lemma replace_null_cells cells :
  pa.replace_with_mask cells (pa.equal cells "null") None = map json_null_to_null cells.
Proof.
  unfold pa.replace_with_mask, pa.equal.
  induction cells as [|cell cells IH]; [done|]. simpl. f_equal; [|done].
  unfold json_null_to_null. destruct cell as [s|]; simpl; [|done].
  destruct (String.eqb_spec s "null") as [->|Hne]; [done|].
  rewrite bool_decide_eq_false_2; [done|]. by intros [= ->].
Qed.

Lemma json_null_to_null_idemp cell :
  json_null_to_null (json_null_to_null cell) = json_null_to_null cell.
Proof. unfold json_null_to_null. by repeat case_bool_decide. Qed.

Lemma index_missing (names : list string) field :
  field ∉ names → pa.index names field = inl (pa.ValueError ("'" +:+ field +:+ "' is not in list")).
Proof.
  induction names as [|name names IH]; [done|]. intros Hnot. simpl.
  destruct (String.eqb_spec name field) as [->|Hne].
  - destruct Hnot. by left.
  - rewrite IH; [done|]. intros Hin. destruct Hnot. by right.
Qed.

(** With the position of the field and the one column that has its name,
    the column is replaced in place and no other column changes. *)
Lemma set_column_unwrapped table field i column cells :
  pa.index (pa.column_names table) field = inr i →
  List.filter (λ column, String.eqb column.1 field) table = [column] →
  pa.set_column table i cells =
  map (λ other : string * list (option string),
         (other.1, if String.eqb other.1 field then cells else other.2)) table.
Proof.
  unfold pa.set_column in *.
  revert i. induction table as [|[name cells0] table IH]; intros i; [done|].
  simpl. destruct (String.eqb_spec name field) as [->|Hne].
  - intros [= <-] [= <- Hrest]. simpl. f_equal.
    symmetry. rewrite <- (map_id table) at 2. apply map_ext_in.
    intros [name cells1] Hin. simpl.
    destruct (String.eqb name field) eqn:Hname; [|done].
    assert (In (name, cells1) (List.filter (λ column, String.eqb column.1 field) table))
      as Hfilter by (apply filter_In; done).
    rewrite Hrest in Hfilter. destruct Hfilter.
  - destruct (pa.index (pa.column_names table) field) as [e|i'] eqn:Hindex; [done|].
    intros [= <-] Hfilter. specialize (IH i' eq_refl Hfilter).
    change (((name, cells0) :: table) !! S i') with (table !! i'). revert IH.
    destruct (table !! i') as [[name' cells']|]; intros IH; simpl; f_equal; exact IH.
Qed.

(** The transform, once the field is found in exactly one column. *)
Lemma unwrap_found table field i column :
  pa.index (pa.column_names table) field = inr i →
  List.filter (λ column, String.eqb column.1 field) table = [column] →
  unwrap_json_connector_x field table = inr (unwrapped field table).
Proof.
  intros Hindex Hfilter. unfold unwrap_json_connector_x, pa.getitem.
  rewrite Hindex, Hfilter, replace_null_cells.
  rewrite (set_column_unwrapped table field i column _ Hindex Hfilter).
  f_equal. unfold unwrapped. apply map_ext_in. intros [name cells] Hin. simpl.
  destruct (String.eqb name field) eqn:Hname; [|done].
  assert (In (name, cells) (List.filter (λ column, String.eqb column.1 field) table))
    as Hin' by (apply filter_In; done).
  rewrite Hfilter in Hin'. destruct Hin' as [->|[]]. done.
Qed.

(** The transform returns a table only in that case. *)
Lemma unwrap_returns table field table' :
  unwrap_json_connector_x field table = inr table' →
  table' = unwrapped field table ∧
  ∃ i column,
    pa.index (pa.column_names table) field = inr i ∧
    List.filter (λ column, String.eqb column.1 field) table = [column].
Proof.
  intros Hunwrap. pose proof Hunwrap as Hcases.
  unfold unwrap_json_connector_x, pa.getitem in Hcases.
  destruct (pa.index _ _) as [e|i] eqn:Hindex; [done|].
  destruct (List.filter _ table) as [|column [|]] eqn:Hfilter; try done.
  split; [|eauto].
  rewrite (unwrap_found table field i column Hindex Hfilter) in Hunwrap.
  by injection Hunwrap as <-.
Qed.

Lemma unique_column table field :
  NoDup (pa.column_names table) → field ∈ pa.column_names table →
  ∃ i column,
    pa.index (pa.column_names table) field = inr i ∧
    List.filter (λ column, String.eqb column.1 field) table = [column].
Proof.
  induction table as [|[name cells] table IH]; [by intros _ ?%elem_of_nil|].
  simpl. intros [Hfresh Hnodup]%NoDup_cons Hin.
  destruct (String.eqb_spec name field) as [->|Hne].
  - exists 0, (field, cells). split; [done|]. f_equal.
    clear IH Hin Hnodup. induction table as [|[name' cells'] table IH]; [done|].
    simpl. destruct (String.eqb_spec name' field) as [->|Hne'].
    + destruct Hfresh. by left.
    + apply IH. intros Hin. destruct Hfresh. by right.
  - apply elem_of_cons in Hin as [->|Hin]; [done|].
    destruct (IH Hnodup Hin) as (i & column & -> & ->). eauto.
Qed.

Lemma unwrapped_names field table :
  pa.column_names (unwrapped field table) = pa.column_names table.
Proof.
  induction table as [|[name cells] table IH]; [done|]. simpl. by f_equal.
Qed.

Lemma unwrapped_filter field table :
  List.filter (λ column, String.eqb column.1 field) (unwrapped field table)
  = unwrapped field (List.filter (λ column, String.eqb column.1 field) table).
Proof.
  unfold unwrapped.
  induction table as [|[name cells] table IH]; [done|]. simpl.
  destruct (String.eqb name field) eqn:Hname; simpl; rewrite ?Hname; by f_equal.
Qed.

Lemma unwrapped_idemp field table :
  unwrapped field (unwrapped field table) = unwrapped field table.
Proof.
  induction table as [|[name cells] table IH]; [done|]. simpl. f_equal; [|done].
  destruct (String.eqb name field); [|done]. f_equal.
  induction cells as [|cell cells IHcells]; [done|]. simpl.
  by rewrite json_null_to_null_idemp, IHcells.
Qed.

Lemma lookup_map {A B} (f : A → B) (l : list A) i : map f l !! i = f <$> l !! i.
Proof. revert i. induction l as [|a l IH]; intros [|i]; simpl; auto. Qed.

(** X17. On a table that has no column of the given name, the transform of
    [unwrap_json_connector_x] raises the [ValueError] of the position lookup
    and returns no table. *)
Theorem unwrap_json_missing_field field table :
  field ∉ pa.column_names table →
  unwrap_json_connector_x field table = inl (pa.ValueError ("'" +:+ field +:+ "' is not in list")).
Proof.
  intros Hmissing. unfold unwrap_json_connector_x. by rewrite index_missing.
Qed.

(** X18. On a table whose column names are distinct and include the field,
    the transform returns a table with the same columns in the same order. In
    the column of the field each cell that holds the JSON text [null] has
    become a null cell and every other cell is as it was, so that no cell
    holds the text [null] any more; the other columns are unchanged. *)
Theorem unwrap_json_unique_field field table :
  NoDup (pa.column_names table) →
  field ∈ pa.column_names table →
  ∃ table',
    unwrap_json_connector_x field table = inr table' ∧
    pa.column_names table' = pa.column_names table ∧
    (∀ i name cells,
       table !! i = Some (name, cells) →
       table' !! i =
         Some (name, if decide (name = field) then json_null_to_null <$> cells else cells)) ∧
    ∀ cells, (field, cells) ∈ table' → Some "null" ∉ cells.
Proof.
  intros Hnodup Hin.
  destruct (unique_column table field Hnodup Hin) as (i & column & Hindex & Hfilter).
  exists (unwrapped field table).
  split; [by apply (unwrap_found table field i column)|].
  split; [apply unwrapped_names|]. split.
  - intros j name cells Hj. unfold unwrapped.
    rewrite lookup_map, Hj. simpl.
    destruct (String.eqb_spec name field) as [->|Hne].
    + by rewrite decide_True.
    + by rewrite decide_False.
  - intros cells Hcells. unfold unwrapped in Hcells.
    apply list_elem_of_In, in_map_iff in Hcells as ([name cells0] & [= -> Heq] & _).
    simpl in Heq. rewrite String.eqb_refl in Heq. subst cells.
    intros Hnull. apply list_elem_of_In, in_map_iff in Hnull as (cell & Hcell & _).
    unfold json_null_to_null in Hcell. by case_bool_decide.
Qed.

(** X19. Whenever the transform returns a table, applying it again to this
    table returns the same table. *)
Theorem unwrap_json_idempotent field table table' :
  unwrap_json_connector_x field table = inr table' →
  unwrap_json_connector_x field table' = inr table'.
Proof.
  intros (-> & i & column & Hindex & Hfilter)%unwrap_returns.
  rewrite <- (unwrapped_idemp field table) at 2.
  apply (unwrap_found _ field i
           ((λ column : string * list (option string),
               (column.1,
                if String.eqb column.1 field
                then map json_null_to_null column.2 else column.2)) column)).
  - by rewrite unwrapped_names.
  - rewrite unwrapped_filter, Hfilter. done.
Qed.

End UnwrapProperties.

(** * The further properties on the worked extraction *)

Lemma make_query_built_witness :
  make_query events_loader = Ok events_query.
Proof.
  destruct (make_query_built events_engine "sqlalchemy" events [] 2 (Some events_cursor) None
              events_loader eq_refl) as (query & Hquery & _ & _ & Hmake).
  rewrite Hmake. f_equal. by injection Hquery as <-.
Defined.

Lemma make_query_mentions_cursor_only_witness :
  length (Select.whereclause events_query) ≤ 1 ∧
  length (Select.order_by_clauses events_query) ≤ 1.
Proof.
  destruct (make_query_mentions_cursor_only events_engine "sqlalchemy" events [] 2
              (Some events_cursor) None events_loader events_query eq_refl eq_refl)
    as (Hwhere & Horder & _).
  split; [exact Hwhere | exact Horder].
Defined.

Lemma make_query_exclude_no_null_witness :
  ∃ loader query,
    __init__ events_engine "sqlalchemy" events [] 2 (Some events_window) None = Ok loader ∧
    _make_query loader = Ok query ∧
    ∀ row, selects compare_Z query row = true → is_Some (Row.cell row "ts").
Proof.
  destruct (make_query_exclude_no_null events_engine "sqlalchemy" events [] 2 events_window
              None ts_column)
    as (loader & query & Hinit & Hquery & Hrows);
    [reflexivity | left; reflexivity | reflexivity |].
  exists loader, query. split; [exact Hinit|]. split; [exact Hquery|].
  intros row. apply (Hrows compare_Z row).
Defined.

Lemma make_query_end_value_narrows_witness :
  ∃ loader loader' query query',
    __init__ events_engine "sqlalchemy" events [] 2 (Some events_window) None = Ok loader ∧
    __init__ events_engine "sqlalchemy" events [] 2
      (Some (with_end_value events_window None)) None = Ok loader' ∧
    _make_query loader = Ok query ∧
    _make_query loader' = Ok query' ∧
    ∀ row, selects compare_Z query row = true → selects compare_Z query' row = true.
Proof.
  destruct (make_query_end_value_narrows events_engine "sqlalchemy" events [] 2 events_window
              None ts_column)
    as (loader & loader' & query & query' & Hinit & Hinit' & Hquery & Hquery' & _ & Hrows);
    [reflexivity|].
  exists loader, loader', query, query'. repeat (split; [assumption|]).
  intros row. apply (Hrows compare_Z row).
Defined.

Lemma load_rows_failure_propagates_witness :
  (consume 3
     (_load_rows (events_world_with true (inl "") (Some (DatabaseError "connection reset")))
        events_loader events_query ∅)).2
  = Failed (DatabaseError "connection reset").
Proof.
  refine (proj1 (proj2
    (load_rows_failure_propagates
       (events_world_with true (inl "") (Some (DatabaseError "connection reset")))
       events_loader events_query ∅
       {| ExecResult.keys := ["id"; "ts"; "val"];
          ExecResult.rows :=
            [events_row 2 20240101 20; events_row 3 20240102 30; events_row 4 20240103 40];
          ExecResult.failure := Some (DatabaseError "connection reset") |}
       (DatabaseError "connection reset") 2 _ _ _ _ _ _))).
  - simpl. lia.
  - left. reflexivity.
  - reflexivity.
  - reflexivity.
  - reflexivity.
  - vm_compute. lia.
Defined.

Lemma load_rows_unknown_backend_witness :
  consume 1 (_load_rows events_world (events_backend_loader "polars") events_query ∅) =
    ([Effect (Connected events_engine);
      Effect (Executed events_query 2);
      Effect (ConnectionClosed events_engine)],
     Exhausted).
Proof.
  refine (load_rows_unknown_backend events_world (events_backend_loader "polars")
            events_query ∅
            {| ExecResult.keys := ["id"; "ts"; "val"];
               ExecResult.rows :=
                 [events_row 2 20240101 20; events_row 3 20240102 30;
                  events_row 4 20240103 40];
               ExecResult.failure := None |} 0 _ _ _ _).
  - intros [H|[H|H]]; discriminate H.
  - reflexivity.
  - reflexivity.
  - reflexivity.
Defined.

Lemma load_rows_chunk_bounds_witness :
  0 < length (chunk_rows (RowDicts [Row._mapping (events_row 4 20240103 40)])) ≤ 2.
Proof.
  refine (load_rows_chunk_bounds events_world events_loader events_query ∅
            {| ExecResult.keys := ["id"; "ts"; "val"];
               ExecResult.rows :=
                 [events_row 2 20240101 20; events_row 3 20240102 30;
                  events_row 4 20240103 40];
               ExecResult.failure := None |}
            (RowDicts [Row._mapping (events_row 4 20240103 40)]) _ _ _ _ _).
  - simpl. lia.
  - left. reflexivity.
  - reflexivity.
  - reflexivity.
  - apply elem_of_cons. right. apply elem_of_cons. left. reflexivity.
Defined.

Lemma load_rows_sqlalchemy_witness :
  yields (_load_rows events_world events_loader events_query ∅) =
    [RowDicts [Row._mapping (events_row 2 20240101 20);
               Row._mapping (events_row 3 20240102 30)];
     RowDicts [Row._mapping (events_row 4 20240103 40)]].
Proof.
  refine (load_rows_sqlalchemy events_world events_loader events_query ∅
            {| ExecResult.keys := ["id"; "ts"; "val"];
               ExecResult.rows :=
                 [events_row 2 20240101 20; events_row 3 20240102 30;
                  events_row 4 20240103 40];
               ExecResult.failure := None |} _ _ _); reflexivity.
Defined.

Lemma load_rows_pandas_witness :
  ∃ wrap_kwargs : gmap string PyVal,
    yields (_load_rows events_world (events_backend_loader "pandas") events_query
              {[ "dtype_backend" := PyStr "numpy_nullable" ]}) =
      [DataFrame [events_row 2 20240101 20; events_row 3 20240102 30]
         ["id"; "ts"; "val"] wrap_kwargs;
       DataFrame [events_row 4 20240103 40] ["id"; "ts"; "val"] wrap_kwargs] ∧
    wrap_kwargs !! "dtype_backend" = Some (PyStr "numpy_nullable").
Proof.
  destruct (load_rows_pandas events_world (events_backend_loader "pandas") events_query
              {[ "dtype_backend" := PyStr "numpy_nullable" ]}
              {| ExecResult.keys := ["id"; "ts"; "val"];
                 ExecResult.rows :=
                   [events_row 2 20240101 20; events_row 3 20240102 30;
                    events_row 4 20240103 40];
                 ExecResult.failure := None |})
    as (wrap_kwargs & Hyields & Hdtype & _); [reflexivity..|].
  exists wrap_kwargs. split; [exact Hyields | exact Hdtype].
Defined.

Lemma load_rows_pyarrow_witness :
  yields (_load_rows events_world (events_backend_loader "pyarrow") events_query ∅) =
    [ArrowTable [events_row 2 20240101 20; events_row 3 20240102 30]
       [("id", "bigint"); ("ts", "timestamp"); ("val", "bigint")] (PyStr "UTC");
     ArrowTable [events_row 4 20240103 40]
       [("id", "bigint"); ("ts", "timestamp"); ("val", "bigint")] (PyStr "UTC")].
Proof.
  refine (load_rows_pyarrow events_world (events_backend_loader "pyarrow") events_query ∅
            {| ExecResult.keys := ["id"; "ts"; "val"];
               ExecResult.rows :=
                 [events_row 2 20240101 20; events_row 3 20240102 30;
                  events_row 4 20240103 40];
               ExecResult.failure := None |} _ _ _); reflexivity.
Defined.

Lemma load_rows_connectorx_missing_witness :
  consume 1
    (load_rows (events_world_with false (inr "SELECT * FROM events") None)
       (events_backend_loader "connectorx") None)
  = ([], Failed (MissingDependencyException "Connector X table backend" ["connectorx"])).
Proof.
  refine (load_rows_connectorx_missing (events_world_with false (inr "SELECT * FROM events") None)
            (events_backend_loader "connectorx") events_query None 0 _ _ _); reflexivity.
Defined.

Lemma load_rows_connectorx_read_witness :
  ∃ options,
    consume 2
      (_load_rows_connectorx (events_world_with true (inr "SELECT * FROM events") None)
         (events_backend_loader "connectorx") events_query {[ "protocol" := PyStr "text" ]})
    = ([Effect (ReadSql (PyStr "sqlite:///events.db") "SELECT * FROM events" options);
        Item (ConnectorXResult (PyStr "sqlite:///events.db") "SELECT * FROM events" options)],
       Exhausted) ∧
    options !! "protocol" = Some (PyStr "text") ∧
    options !! "return_type" = Some (PyStr "arrow2").
Proof.
  destruct (load_rows_connectorx_read (events_world_with true (inr "SELECT * FROM events") None)
              (events_backend_loader "connectorx") events_query
              {[ "protocol" := PyStr "text" ]} "SELECT * FROM events" 0)
    as (conn & options & Hrun & Hconn & _ & Hreturn & Hprotocol & _);
    [reflexivity | reflexivity | reflexivity |].
  exists options. subst conn. split; [exact Hrun|]. split; [exact Hprotocol | exact Hreturn].
Defined.

Lemma table_rows_keeps_engine_witness :
  Effect (Disposed events_shared_engine) ∉
    (consume 3
       (table_rows events_world events_shared_engine events 2 "sqlalchemy" (Some events_cursor)
          false None "full" None None None None)).1.
Proof.
  apply (table_rows_keeps_engine events_world events_shared_engine events 2 "sqlalchemy"
           (Some events_cursor) false None "full" None None None None 3 events_shared_engine).
  reflexivity.
Defined.

Lemma table_rows_disposes_engine_witness :
  ∃ body,
    (consume 1
       (table_rows events_world events_engine events 2 "sqlalchemy" (Some events_cursor)
          false None "full" None None None None)).1
    = body ++ [Effect (Disposed events_engine)].
Proof.
  destruct (table_rows_disposes_engine events_world events_engine events 2 "sqlalchemy"
              (Some events_cursor) false None "full" None None None None 0)
    as (body & Hbody & _).
  - reflexivity.
  - intros inc [= <-]. exists ts_column. reflexivity.
  - exists body. exact Hbody.
Defined.

Lemma unwrap_json_missing_field_witness :
  unwrap_json_connector_x "body" payloads = inl (pa.ValueError "'body' is not in list").
Proof.
  apply (unwrap_json_missing_field "body" payloads).
  intros Hin. simpl in Hin.
  repeat (apply elem_of_cons in Hin as [Heq|Hin]; [discriminate Heq|]).
  by apply elem_of_nil in Hin.
Defined.

Lemma unwrap_json_unique_field_witness :
  ∃ table',
    unwrap_json_connector_x "payload" payloads = inr table' ∧
    pa.column_names table' = ["id"; "payload"] ∧
    ∀ cells, ("payload", cells) ∈ table' → Some "null" ∉ cells.
Proof.
  destruct (unwrap_json_unique_field "payload" payloads)
    as (table' & Hunwrap & Hnames & _ & Hnull).
  - simpl. apply NoDup_cons. split; [|apply NoDup_singleton].
    intros Hin. apply elem_of_cons in Hin as [Heq|Hin]; [discriminate Heq|].
    by apply elem_of_nil in Hin.
  - simpl. apply elem_of_cons. right. apply elem_of_cons. left. reflexivity.
  - exists table'. split; [exact Hunwrap|]. split; [exact Hnames | exact Hnull].
Defined.

Lemma unwrap_json_idempotent_witness :
  unwrap_json_connector_x "payload"
    [ ("id", [Some "1"; Some "2"; Some "3"]); ("payload", [Some "[1, 2]"; None; None]) ]
  = inr [ ("id", [Some "1"; Some "2"; Some "3"]); ("payload", [Some "[1, 2]"; None; None]) ].
Proof.
  apply (unwrap_json_idempotent "payload" payloads). reflexivity.
Defined.

Lemma load_rows_executes_adapted_query_witness :
  Executed events_query 2 ∈ effects (load_rows events_world events_loader None).
Proof.
  destruct (load_rows_executes_adapted_query events_world events_engine "sqlalchemy" events []
              2 (Some events_cursor) None events_loader None)
    as (query & Hquery & Hexecuted); [reflexivity | discriminate | reflexivity |].
  apply Hexecuted. split; [|reflexivity]. by injection Hquery as <-.
Defined.
